(** * Column-bounded UTF-8 text scanning (libunicode, src/unicode/scan.cpp)

    A shallow embedding of the three functions of scan.cpp

      - [detail::scan_for_text_ascii]     (the ASCII fast path, SSE2 batches
                                           followed by the scalar tail loop),
      - [detail::scan_for_text_nonascii]  (the complex-span scanner),
      - [scan_for_text]                   (the driver alternating the two),

    together with the properties the specification states about them.

    Conventions.  Pointers into the scanned buffer are byte offsets in [Z].
    [size_t] values are integers in [Z] whose additions, subtractions and
    casts are reduced modulo 2^64; [unsigned] counters are reduced modulo
    2^32.  Bytes are [Byte.byte]; a [string_view] handed to a leaf scanner is
    the list of the bytes it covers.  The driver re-slices its view, so it
    works on a buffer and a (data, size) window onto it. *)

From Stdlib Require Import ZArith NArith List Lia Bool.
From Stdlib Require Import Strings.Byte.
Import ListNotations.

Local Open Scope Z_scope.

(** ** Machine integers *)

Definition size_t_max : Z := 2 ^ 64 - 1.

(** [static_cast<size_t>] and the result of [size_t] arithmetic. *)
Definition to_size_t (x : Z) : Z := x mod 2 ^ 64.

(** Result of arithmetic on [unsigned]. *)
Definition to_unsigned (x : Z) : Z := x mod 2 ^ 32.

(** [static_cast<uint8_t>(ch)] *)
Definition uint8 (ch : byte) : Z := Z.of_N (Byte.to_N ch).

(** A byte lane read as a signed 8-bit integer, as [_mm_cmplt_epi8] does. *)
Definition int8 (lane : Z) : Z :=
  if lane <? 128 then lane else lane - 256.

(** ** Byte classification (the anonymous namespace of scan.cpp) *)

Definition is_control (ch : byte) : bool := uint8 ch <? 0x20.

Definition is_complex (ch : byte) : bool :=
  negb (Z.land (uint8 ch) 0x80 =? 0).

Definition is_ascii (ch : byte) : bool :=
  negb (is_control ch) && negb (is_complex ch).

(** [__builtin_ctz]: index of the lowest set bit.  The builtin is undefined
    at 0; the only caller passes a non-zero mask. *)
Fixpoint ctz_pos (p : positive) : Z :=
  match p with
  | xO q => 1 + ctz_pos q
  | _ => 0
  end.

Definition countTrailingZeroBits (value : Z) : Z :=
  match value with
  | Zpos p => ctz_pos p
  | _ => 0
  end.

(** ** SSE2 lanes

    A [__m128i] is the list of its byte lanes, lowest address first, each
    lane an integer in [0, 256). *)

Definition m128i := list Z.

Definition mm_loadu_si128 (bytes : list byte) : m128i :=
  map uint8 (firstn 16 bytes).

(** [_mm_cmplt_epi8 a (set1 k)]: signed lane compare against a constant. *)
Definition mm_cmplt_epi8_const (a : m128i) (k : Z) : m128i :=
  map (fun x => if int8 x <? k then 0xFF else 0) a.

(** [_mm_and_si128 a (set1 k)] *)
Definition mm_and_si128_const (a : m128i) (k : Z) : m128i :=
  map (fun x => Z.land x k) a.

Fixpoint mm_or_si128 (a b : m128i) : m128i :=
  match a, b with
  | x :: a', y :: b' => Z.lor x y :: mm_or_si128 a' b'
  | _, _ => []
  end.

(** [_mm_movemask_epi8]: bit i of the result is the top bit of lane i. *)
Fixpoint mm_movemask_epi8 (a : m128i) : Z :=
  match a with
  | [] => 0
  | x :: a' => Z.lor (Z.b2z (Z.testbit x 7)) (Z.shiftl (mm_movemask_epi8 a') 1)
  end.

Definition sizeof_m128i : Z := 16.

(** The mask [check] of line 92 as a function of the bytes of the batch. *)
Definition check_of (bytes : list byte) : Z :=
  let batch := map uint8 bytes in
  mm_movemask_epi8
    (mm_or_si128 (mm_cmplt_epi8_const batch 0x20)
       (mm_and_si128_const batch 0x80)).

(** ** detail::scan_for_text_ascii *)

(** The vectorised loop (lines 85-99).  [bytes] are the bytes from [input]
    on; the result is the new [input] and the bytes from there on.  Every
    round that does not stop moves [input] by a whole batch, so a fuel of
    the span length is never used up. *)
Fixpoint sse2_loop (fuel : nat) (bytes : list byte) (input end_ : Z)
  : Z * list byte :=
  match fuel with
  | O => (input, bytes)
  | S fuel' =>
      if input <? end_ - sizeof_m128i then
        let batch := mm_loadu_si128 bytes in
        let isControl := mm_cmplt_epi8_const batch 0x20 in
        let isComplex := mm_and_si128_const batch 0x80 in
        let testPack := mm_or_si128 isControl isComplex in
        let check := mm_movemask_epi8 testPack in
        if negb (check =? 0) then
          let advance := countTrailingZeroBits check in
          (input + advance, skipn (Z.to_nat advance) bytes)
        else
          sse2_loop fuel' (skipn 16 bytes) (input + sizeof_m128i) end_
      else (input, bytes)
  end.

(** The scalar tail loop (lines 102-103). *)
Fixpoint scalar_loop (bytes : list byte) (input end_ : Z) : Z :=
  match bytes with
  | [] => input
  | ch :: bytes' =>
      if negb (input =? end_) && is_ascii ch
      then scalar_loop bytes' (input + 1) end_
      else input
  end.

(** Offsets are relative to [text.data()], so the returned [input] is the
    [distance(text.data(), input)] of line 111. *)
Definition scan_for_text_ascii (text : list byte) (maxColumnCount : Z) : Z :=
  let size := Z.of_nat (length text) in
  let end_ := Z.min size maxColumnCount in
  let '(input, bytes) := sse2_loop (length text) text 0 end_ in
  scalar_loop bytes input end_.

(** The portable build, without [__SSE2__]: the scalar loop alone. *)
Definition scan_for_text_ascii_scalar (text : list byte) (maxColumnCount : Z)
  : Z :=
  scalar_loop text 0 (Z.min (Z.of_nat (length text)) maxColumnCount).

(** What the contract of 4.1 says, in its own words: the number of leading
    plain bytes, capped at [min(span length, budget)]. *)
Fixpoint plain_run (text : list byte) : nat :=
  match text with
  | ch :: text' => if is_ascii ch then S (plain_run text') else O
  | [] => O
  end.

Definition leading_plain_capped (text : list byte) (budget : Z) : Z :=
  Z.min (Z.of_nat (plain_run text)) (Z.min (Z.of_nat (length text)) budget).

(** ** The decoder interface and the scan data (unicode/utf8.h, scan.h)

    The headers are not part of the scanned source; the types below carry
    exactly the fields scan.cpp reads and writes. *)

Definition char32_t := N.

(** [std::variant<Invalid, Incomplete, Success>] *)
Inductive ConvertResult : Type :=
| Invalid
| Incomplete
| Success (value : char32_t).

Record utf8_decoder_state : Type := mk_utf8_decoder_state {
  character : char32_t;
  expectedLength : N;
  currentLength : N
}.

Record scan_state : Type := mk_scan_state {
  utf8 : utf8_decoder_state;
  lastCodepointHint : char32_t
}.

(** Field order as in the aggregate initialisers of lines 206 and 225. *)
Record scan_result : Type := mk_scan_result {
  count : Z;
  next : Z;
  start : Z;
  end_ : Z
}.

(** A value-initialised [scan_state {}]. *)
Definition fresh_state : scan_state :=
  mk_scan_state (mk_utf8_decoder_state 0%N 0%N 0%N) 0%N.

(** The three external collaborators of section 6 of the specification.
    scan.cpp only calls them, so the scanners are defined, and the general
    theorems proved, for arbitrary implementations. *)
Class Collaborators : Type := {
  (** [from_utf8(state, byte)]: the result and the updated decoder state *)
  from_utf8 : utf8_decoder_state -> byte -> ConvertResult * utf8_decoder_state;
  (** [grapheme_segmenter::breakable(prev, next)] *)
  breakable : char32_t -> char32_t -> bool;
  (** [width(codepoint)], an [int] *)
  width : char32_t -> Z
}.

(** ** detail::scan_for_text_nonascii *)

(** The local variables of the function that the loop reads or writes. *)
Record loop_vars : Type := mk_loop_vars {
  v_state : scan_state;
  v_count : Z;
  v_input : Z;
  v_clusterStart : Z;
  v_lastCodepointStart : Z;
  v_byteCount : Z;
  v_currentClusterWidth : Z;
  v_resultEnd : Z
}.

(** How one round of the loop ends: with [continue] / falling through to the
    next round, or with [break]. *)
Inductive flow : Type :=
| Continue (v : loop_vars)
| Break (v : loop_vars).

Definition flow_vars (f : flow) : loop_vars :=
  match f with
  | Continue v => v
  | Break v => v
  end.

Definition VS16 : char32_t := 0xFE0F%N.

(** A call either returns, or runs into undefined behaviour, or (a model
    artefact, shown below never to happen) uses up the loop fuel. *)
Inductive outcome (A : Type) : Type :=
| Returns (a : A)
| Undefined
| OutOfFuel.
Arguments Returns {A} a.
Arguments Undefined {A}.
Arguments OutOfFuel {A}.

Section Scanner.

Context {C : Collaborators}.

(** The [Success] branch of the loop body, lines 144-186.  [input] and
    [byteCount] are the values after [*input++] and [++byteCount] of this
    round, [utf8'] the decoder state [from_utf8] left behind. *)
Definition on_success (maxColumnCount : Z) (utf8' : utf8_decoder_state)
  (nextCodepoint : char32_t) (input byteCount : Z) (v : loop_vars) : flow :=
  let prevCodepoint := lastCodepointHint (v_state v) in
  let nextWidth :=
    Z.max (v_currentClusterWidth v) (to_size_t (width nextCodepoint)) in
  let state' := mk_scan_state utf8' nextCodepoint in
  if breakable prevCodepoint nextCodepoint then
    let count' := to_size_t (v_count v + v_currentClusterWidth v) in
    if to_size_t (count' + nextWidth) >? maxColumnCount then
      Break (mk_loop_vars state' count' (input - byteCount)
               (v_clusterStart v) (v_lastCodepointStart v) byteCount
               0 (v_resultEnd v))
    else
      Continue (mk_loop_vars state' count' input
                  (v_lastCodepointStart v) (input - byteCount) 0
                  nextWidth input)
  else
    if (nextCodepoint =? VS16)%N then
      if to_size_t (v_count v + 2) >? maxColumnCount then
        Break (mk_loop_vars state' (v_count v) (v_clusterStart v)
                 (v_clusterStart v) (v_lastCodepointStart v) byteCount
                 0 input)
      else
        Continue (mk_loop_vars state' (v_count v) input
                    (v_clusterStart v) (input - byteCount) byteCount
                    2 input)
    else
      Continue (mk_loop_vars state' (v_count v) input
                  (v_clusterStart v) (input - byteCount) byteCount
                  (v_currentClusterWidth v) input).

(** The loop body, lines 136-195. *)
Definition nonascii_body (maxColumnCount : Z) (ch : byte) (v : loop_vars)
  : flow :=
  let '(result, utf8') := from_utf8 (utf8 (v_state v)) ch in
  let input := v_input v + 1 in
  let byteCount := to_unsigned (v_byteCount v + 1) in
  match result with
  | Incomplete =>
      Continue (mk_loop_vars
                  (mk_scan_state utf8' (lastCodepointHint (v_state v)))
                  (v_count v) input
                  (v_clusterStart v) (v_lastCodepointStart v) byteCount
                  (v_currentClusterWidth v) (v_resultEnd v))
  | Success nextCodepoint =>
      on_success maxColumnCount utf8' nextCodepoint input byteCount v
  | Invalid =>
      Continue (mk_loop_vars (mk_scan_state utf8' 0%N)
                  (to_size_t (v_count v + 1)) input
                  (v_clusterStart v) (v_lastCodepointStart v) 0
                  0 (v_resultEnd v))
  end.

(** The loop of line 134.  [bytes] are the bytes from [input] up to [end];
    a round that does not break consumes exactly the first of them. *)
Fixpoint nonascii_loop (maxColumnCount : Z) (bytes : list byte)
  (v : loop_vars) : loop_vars :=
  match bytes with
  | [] => v
  | ch :: bytes' =>
      if (v_count v <=? maxColumnCount) && is_complex ch then
        match nonascii_body maxColumnCount ch v with
        | Continue v' => nonascii_loop maxColumnCount bytes' v'
        | Break v' => v'
        end
      else v
  end.

(** [text_data] is [text.data()], [text] the bytes of the view.  Returns the
    updated scan state together with the result. *)
Definition scan_for_text_nonascii (state : scan_state) (text_data : Z)
  (text : list byte) (maxColumnCount : Z) : scan_state * scan_result :=
  let start := text_data in
  let resultStart :=
    if negb (expectedLength (utf8 state) =? 0)%N
    then start - Z.of_N (currentLength (utf8 state))
    else start in
  let v := nonascii_loop maxColumnCount text
             (mk_loop_vars state 0 start start start 0 0 resultStart) in
  (v_state v,
   mk_scan_result (to_size_t (v_count v + v_currentClusterWidth v))
     (v_input v) resultStart (v_resultEnd v)).

(** ** scan_for_text *)

(** A [string_view] as a window onto the caller's buffer. *)
Record string_view : Type := mk_string_view {
  data : Z;
  size : Z
}.

Definition view_end (text : string_view) : Z := data text + size text.

(** The bytes a view covers; [None] when the window leaves the buffer, where
    reading through it is undefined. *)
Definition bytes_of (mem : list byte) (text : string_view)
  : option (list byte) :=
  if (0 <=? data text) && (0 <=? size text)
     && (view_end text <=? Z.of_nat (length mem))
  then Some (firstn (Z.to_nat (size text)) (skipn (Z.to_nat (data text)) mem))
  else None.

(** [text.front()]: undefined on an empty view. *)
Definition front (mem : list byte) (text : string_view) : option byte :=
  if (size text =? 0) || (data text <? 0) then None
  else nth_error mem (Z.to_nat (data text)).

(** [text.remove_prefix(n)]: undefined when [n > size()]. *)
Definition remove_prefix (text : string_view) (n : Z) : option string_view :=
  if n <=? size text
  then Some (mk_string_view (data text + n) (size text - n))
  else None.

Inductive NextState : Type := Trivial | Complex.

(** The loop of lines 237-262. *)
Fixpoint scan_loop (fuel : nat) (mem : list byte) (maxColumnCount : Z)
  (nextState : NextState) (state : scan_state) (result : scan_result)
  (text : string_view) : outcome (scan_state * scan_result) :=
  if (count result <? maxColumnCount)
     && negb (next result =? view_end text)
  then
    match fuel with
    | O => OutOfFuel
    | S fuel' =>
        match bytes_of mem text with
        | None => Undefined
        | Some bytes =>
            match nextState with
            | Trivial =>
                let n := scan_for_text_ascii bytes
                           (to_size_t (maxColumnCount - count result)) in
                if n =? 0 then Returns (state, result)
                else
                  match remove_prefix text n with
                  | None => Undefined
                  | Some text' =>
                      scan_loop fuel' mem maxColumnCount Complex state
                        (mk_scan_result (to_size_t (count result + n))
                           (next result + n) (start result)
                           (end_ result + n))
                        text'
                  end
            | Complex =>
                let '(state', sub) :=
                  scan_for_text_nonascii state (data text) bytes
                    (to_size_t (maxColumnCount - count result)) in
                match remove_prefix text
                        (to_size_t (end_ sub - start sub)) with
                | None => Undefined
                | Some text' =>
                    scan_loop fuel' mem maxColumnCount Trivial state'
                      (mk_scan_result (to_size_t (count result + count sub))
                         (next sub) (start result) (end_ sub))
                      text'
                end
            end
        end
    end
  else Returns (state, result).

(** Rounds the loop can take on a view: a Trivial round that does not return
    shortens the view, and a Complex round is followed by a Trivial one. *)
Definition loop_fuel (text : string_view) : nat :=
  2 * Z.to_nat (size text) + 2.

Definition scan_for_text (mem : list byte) (state : scan_state)
  (text : string_view) (maxColumnCount : Z)
  : outcome (scan_state * scan_result) :=
  let result0 :=
    mk_scan_result 0 (data text) (data text) (data text) in
  let resumed :=
    if negb (expectedLength (utf8 state) =? 0)%N then
      match bytes_of mem text with
      | None => None
      | Some bytes =>
          let '(state', result) :=
            scan_for_text_nonascii state (data text) bytes maxColumnCount in
          Some (state', result,
                mk_string_view (end_ result)
                  (to_size_t (view_end text - end_ result)))
      end
    else Some (state, result0, text) in
  match resumed with
  | None => Undefined
  | Some (state1, result, text1) =>
      match front mem text1 with
      | None => Undefined
      | Some ch =>
          let nextState := if is_complex ch then Complex else Trivial in
          scan_loop (loop_fuel text1) mem maxColumnCount nextState
            state1 result text1
      end
  end.

(** ** Auxiliary notions used to state the properties *)

(** What the loop maintains about [count] and the pending cluster width:
    together they stay within the budget, except right after a rejected byte,
    when [count] alone may have passed it by one. *)
Definition budget_inv (maxColumnCount : Z) (v : loop_vars) : Prop :=
  0 <= v_count v
  /\ (to_size_t (v_count v + v_currentClusterWidth v) <= maxColumnCount
      \/ (v_currentClusterWidth v = 0 /\ v_count v <= maxColumnCount + 1)).

(** [decodes u bytes = Some (c, u')]: fed to the decoder one at a time from
    decoder state [u], the bytes are one encoded codepoint: every byte but the
    last is answered [Incomplete], the last one [Success c], and [u'] is the
    decoder state left behind. *)
Fixpoint decodes (u : utf8_decoder_state) (bytes : list byte)
  : option (char32_t * utf8_decoder_state) :=
  match bytes with
  | [] => None
  | ch :: rest =>
      match from_utf8 u ch, rest with
      | (Success c, u'), [] => Some (c, u')
      | (Incomplete, u'), _ :: _ => decodes u' rest
      | _, _ => None
      end
  end.

(** No byte of [bytes], fed to the decoder in turn from [u], completes a
    codepoint. *)
Fixpoint no_success (u : utf8_decoder_state) (bytes : list byte) : bool :=
  match bytes with
  | [] => true
  | ch :: rest =>
      match from_utf8 u ch with
      | (Success _, _) => false
      | (_, u') => no_success u' rest
      end
  end.

(** Two successive calls on one stream that thread the scan state: the second
    call scans from the [next] of the first to the end of the stream.  The
    merged result adds the column counts and takes [end] and [next] from the
    second call. *)
Definition scan_for_text_twice (mem : list byte) (state : scan_state)
  (text : string_view) (budget1 budget2 : Z)
  : outcome (scan_state * scan_result) :=
  match scan_for_text mem state text budget1 with
  | Returns (state1, first) =>
      let rest :=
        mk_string_view (next first) (view_end text - next first) in
      match scan_for_text mem state1 rest budget2 with
      | Returns (state2, second) =>
          Returns (state2,
                   mk_scan_result (count first + count second) (next second)
                     (start first) (end_ second))
      | Undefined => Undefined
      | OutOfFuel => OutOfFuel
      end
  | Undefined => Undefined
  | OutOfFuel => OutOfFuel
  end.

(** What the resume property compares: both scans return, with the same
    column count and the same [end] and [next]. *)
Definition same_columns_and_offsets
  (one two : outcome (scan_state * scan_result)) : Prop :=
  match one, two with
  | Returns (_, r1), Returns (_, r2) =>
      count r1 = count r2 /\ end_ r1 = end_ r2 /\ next r1 = next r2
  | _, _ => False
  end.

(** What the loop maintains about its pointers, [text_data] being the start
    of the span: the cluster and codepoint marks lie between the start and
    [input], [byteCount] does not exceed the bytes read so far, and [end] is
    not ahead of [input]. *)
Definition offsets_inv (text_data : Z) (v : loop_vars) : Prop :=
  text_data <= v_clusterStart v <= v_input v
  /\ text_data <= v_lastCodepointStart v <= v_input v
  /\ 0 <= v_byteCount v <= v_input v - text_data
  /\ v_resultEnd v <= v_input v.

(** [incompletes u bytes = Some u']: the decoder answers [Incomplete] to every
    one of the bytes, fed in turn from [u], and is left in [u']. *)
Fixpoint incompletes (u : utf8_decoder_state) (bytes : list byte)
  : option utf8_decoder_state :=
  match bytes with
  | [] => Some u
  | ch :: rest =>
      match from_utf8 u ch with
      | (Incomplete, u') => incompletes u' rest
      | _ => None
      end
  end.

(** No byte of [bytes], fed to the decoder in turn from [u], is rejected. *)
Fixpoint no_invalid (u : utf8_decoder_state) (bytes : list byte) : bool :=
  match bytes with
  | [] => true
  | ch :: rest =>
      match from_utf8 u ch with
      | (Invalid, _) => false
      | (_, u') => no_invalid u' rest
      end
  end.

(** *** Streams of clusters

    What the resume property is stated for: a stream given cluster by
    cluster. *)

(** One cluster of such a stream: a plain ASCII byte, or the encoding [bytes]
    of one codepoint [c] outside ASCII. *)
Inductive item : Type :=
| Plain (ch : byte)
| Codepoint (bytes : list byte) (c : char32_t).

Definition item_bytes (it : item) : list byte :=
  match it with
  | Plain ch => [ch]
  | Codepoint bytes _ => bytes
  end.

(** The columns a cluster takes: one for a plain byte (the fast path counts
    bytes), [width] for a codepoint. *)
Definition item_columns (it : item) : Z :=
  match it with
  | Plain _ => 1
  | Codepoint _ c => width c
  end.

Definition stream_bytes (items : list item) : list byte :=
  flat_map item_bytes items.

Fixpoint stream_columns (items : list item) : Z :=
  match items with
  | [] => 0
  | it :: rest => item_columns it + stream_columns rest
  end.

Fixpoint stream_codepoints (items : list item) : list char32_t :=
  match items with
  | [] => []
  | Plain _ :: rest => stream_codepoints rest
  | Codepoint _ c :: rest => c :: stream_codepoints rest
  end.

(** [c] starts a new grapheme cluster after each of [prevs]. *)
Definition opens_cluster (prevs : list char32_t) (c : char32_t) : bool :=
  forallb (fun prev => breakable prev c) prevs.

(** The clusters the property covers.  A plain byte is in the range of
    [is_ascii].  A codepoint is a complete UTF-8 sequence of bytes with the
    high bit set: a decoder that expects no further byte assembles it to [c]
    and expects no further byte after it.  It is one or two columns wide and
    starts a new cluster after each of [prevs]. *)
Definition well_formed (prevs : list char32_t) (it : item) : Prop :=
  match it with
  | Plain ch => is_ascii ch = true
  | Codepoint bytes c =>
      Forall (fun ch => is_complex ch = true) bytes
      /\ (length bytes <= 4)%nat
      /\ (forall u, expectedLength u = 0%N ->
          exists u', decodes u bytes = Some (c, u')
                     /\ expectedLength u' = 0%N)
      /\ 1 <= width c <= 2
      /\ opens_cluster prevs c = true
  end.

(** No codepoint directly follows a wider codepoint; [w] is the width of the
    codepoint before the stream, 0 when a plain byte or nothing is. *)
Fixpoint widths_ascend (w : Z) (items : list item) : Prop :=
  match items with
  | [] => True
  | Plain _ :: rest => widths_ascend 0 rest
  | Codepoint _ c :: rest => w <= width c /\ widths_ascend (width c) rest
  end.

(** The longest prefix of clusters whose columns fit the budget. *)
Fixpoint fitting (budget : Z) (items : list item) : list item :=
  match items with
  | [] => []
  | it :: rest =>
      if item_columns it <=? budget
      then it :: fitting (budget - item_columns it) rest
      else []
  end.

(** The same within the plain bytes that start a stream, and within the
    codepoints that start it: the share of one call of a leaf scanner. *)
Fixpoint fitting_plain (budget : Z) (items : list item) : list item :=
  match items with
  | Plain ch :: rest =>
      if 1 <=? budget then Plain ch :: fitting_plain (budget - 1) rest else []
  | _ => []
  end.

Fixpoint fitting_codepoints (budget : Z) (items : list item) : list item :=
  match items with
  | Codepoint bytes c :: rest =>
      if width c <=? budget
      then Codepoint bytes c :: fitting_codepoints (budget - width c) rest
      else []
  | _ => []
  end.

(** The round the driver's loop is about to take suits the cluster at the
    start of the stream: a Trivial round before a plain byte, a Complex round
    before a codepoint, or a Trivial round before a codepoint that the
    Complex round has just found too wide for the budget left. *)
Definition round_suits (nextState : NextState) (budget : Z)
  (items : list item) : Prop :=
  match items with
  | [] => True
  | Plain _ :: _ => nextState = Trivial
  | Codepoint _ c :: _ => nextState = Complex \/ budget < width c
  end.

(** What may follow a stream in the span: nothing, or a control byte, in
    front of which both leaf scanners stop. *)
Definition stops_scan (tail : list byte) : Prop :=
  match tail with
  | [] => True
  | ch :: _ => is_control ch = true
  end.

End Scanner.

(** ** A reference implementation of the collaborators

    Used to run the scanners on concrete byte strings. *)

Module Reference.

Definition empty_decoder : utf8_decoder_state :=
  mk_utf8_decoder_state 0%N 0%N 0%N.

(** Modelled from the spec: [from_utf8] of unicode/utf8.h is not part of the
    scanned source.  Section 6 asks for an incremental decoder that consumes
    one byte per call, is resumable through its state and resets its progress
    to empty after [Success] or [Invalid]; this is the standard UTF-8
    automaton with that interface: the lead byte fixes the expected length
    (0xxxxxxx, 110xxxxx, 1110xxxx, 11110xxx), every further byte must be a
    continuation byte 10xxxxxx and contributes six bits. *)
Definition decode_step (st : utf8_decoder_state) (b : byte)
  : ConvertResult * utf8_decoder_state :=
  let value := uint8 b in
  if (expectedLength st =? 0)%N then
    if Z.land value 0x80 =? 0 then
      (Success (Z.to_N value), empty_decoder)
    else if Z.land value 0xE0 =? 0xC0 then
      (Incomplete, mk_utf8_decoder_state (Z.to_N (Z.land value 0x1F)) 2%N 1%N)
    else if Z.land value 0xF0 =? 0xE0 then
      (Incomplete, mk_utf8_decoder_state (Z.to_N (Z.land value 0x0F)) 3%N 1%N)
    else if Z.land value 0xF8 =? 0xF0 then
      (Incomplete, mk_utf8_decoder_state (Z.to_N (Z.land value 0x07)) 4%N 1%N)
    else (Invalid, empty_decoder)
  else if Z.land value 0xC0 =? 0x80 then
    let character' :=
      N.lor (N.shiftl (character st) 6) (Z.to_N (Z.land value 0x3F)) in
    let currentLength' := (currentLength st + 1)%N in
    if (currentLength' <? expectedLength st)%N then
      (Incomplete,
       mk_utf8_decoder_state character' (expectedLength st) currentLength')
    else (Success character', empty_decoder)
  else (Invalid, empty_decoder).

Definition in_range (lo hi c : char32_t) : bool :=
  ((lo <=? c) && (c <=? hi))%N.

(** Control characters, among them U+0000, the "no previous codepoint" value
    of the hint. *)
Definition is_control_codepoint (c : char32_t) : bool :=
  in_range 0x00%N 0x1F%N c || in_range 0x7F%N 0x9F%N c.

(** Combining diacritical marks, the zero-width joiner and the variation
    selectors: the Extend / ZWJ codepoints the examples below use. *)
Definition is_extend_codepoint (c : char32_t) : bool :=
  in_range 0x0300%N 0x036F%N c || (c =? 0x200D)%N || in_range 0xFE00%N 0xFE0F%N c.

(** Modelled from the spec: [grapheme_segmenter::breakable] of
    unicode/grapheme_segmenter.h is not part of the scanned source.  Section 6
    asks for the extended grapheme cluster boundary rules with "none" as
    previous codepoint always a boundary; this is their fragment GB4, GB5
    (break around controls), GB9 (no break before Extend or ZWJ) and GB999
    (break otherwise). *)
Definition is_boundary (prev next : char32_t) : bool :=
  if is_control_codepoint prev || is_control_codepoint next then true
  else negb (is_extend_codepoint next).

(** The main East Asian Wide and Fullwidth blocks. *)
Definition is_wide_codepoint (c : char32_t) : bool :=
  in_range 0x1100%N 0x115F%N c || in_range 0x2E80%N 0x303E%N c
  || in_range 0x3041%N 0x4DBF%N c || in_range 0x4E00%N 0xA4CF%N c
  || in_range 0xAC00%N 0xD7A3%N c || in_range 0xF900%N 0xFAFF%N c
  || in_range 0xFE30%N 0xFE4F%N c || in_range 0xFF00%N 0xFF60%N c
  || in_range 0xFFE0%N 0xFFE6%N c || in_range 0x1F300%N 0x1F64F%N c
  || in_range 0x1F900%N 0x1F9FF%N c || in_range 0x20000%N 0x3FFFD%N c.

(** Modelled from the spec: [width] of unicode/width.h is not part of the
    scanned source.  Section 6 asks for a display width in {0, 1, 2} from
    East Asian Width and the zero-width / combining classification. *)
Definition display_width (c : char32_t) : Z :=
  if is_control_codepoint c || is_extend_codepoint c then 0
  else if is_wide_codepoint c then 2
  else 1.

#[export] Instance collaborators : Collaborators := {
  from_utf8 := decode_step;
  breakable := is_boundary;
  width := display_width
}.

(** Sample texts.  U+05D0 HEBREW LETTER ALEF (narrow), U+0301 COMBINING ACUTE
    ACCENT (zero width, Extend), U+4E2D (wide), U+2764 HEAVY BLACK HEART
    (narrow emoji), U+FE0F VARIATION SELECTOR-16. *)
Definition alef : list byte := [xd7; x90].
Definition acute : list byte := [xcc; x81].
Definition zhong : list byte := [xe4; xb8; xad].
Definition heart : list byte := [xe2; x9d; xa4].
Definition vs16 : list byte := [xef; xb8; x8f].

(** A batch of sixteen bytes with a line feed at index 3. *)
Definition sample_batch : list byte :=
  [x61; x62; x63; x0a; x64; x65; x66; x67;
   x68; x69; x6a; x6b; x6c; x6d; x6e; x6f].

(** A scan state with the first two bytes of U+4E2D consumed. *)
Definition zhong_pending : scan_state :=
  mk_scan_state (mk_utf8_decoder_state 312%N 3%N 2%N) 0%N.

(** A view covering a whole buffer. *)
Definition whole (mem : list byte) : string_view :=
  mk_string_view 0 (Z.of_nat (length mem)).

(** A stream of five clusters, "a", alef, alef, U+4E2D, "b", given as the
    two clusters before a split point and the three after it, and the span
    that holds it followed by a line feed. *)
Definition sample_first : list item :=
  [Plain x61; Codepoint alef 0x5D0%N].

Definition sample_rest : list item :=
  [Codepoint alef 0x5D0%N; Codepoint zhong 0x4E2D%N; Plain x62].

Definition sample_stream : list byte :=
  stream_bytes (sample_first ++ sample_rest) ++ [x0a].

End Reference.

(** * Properties *)

(** ** Machine integers *)

Lemma to_size_t_small (x : Z) : 0 <= x <= size_t_max -> to_size_t x = x.
Proof.
  unfold to_size_t, size_t_max. intros H. apply Z.mod_small. lia.
Qed.

Lemma to_size_t_range (x : Z) : 0 <= to_size_t x <= size_t_max.
Proof.
  unfold to_size_t, size_t_max.
  pose proof (Z.mod_pos_bound x (2 ^ 64) eq_refl). lia.
Qed.

Lemma to_size_t_le (x : Z) : 0 <= x -> to_size_t x <= x.
Proof.
  unfold to_size_t. intros H. apply Z.mod_le; lia.
Qed.

Lemma to_unsigned_small (x : Z) : 0 <= x < 2 ^ 32 -> to_unsigned x = x.
Proof.
  unfold to_unsigned. intros H. apply Z.mod_small. lia.
Qed.

(** ** The ASCII fast path *)

(** Top bit of a lane of [testPack]: set exactly for the bytes that are not
    plain. *)
Lemma testPack_lane (ch : byte) :
  Z.testbit
    (Z.lor (if int8 (uint8 ch) <? 0x20 then 0xFF else 0)
       (Z.land (uint8 ch) 0x80)) 7
  = negb (is_ascii ch).
Proof.
  destruct ch; reflexivity.
Qed.

Lemma check_of_cons (ch : byte) (bytes : list byte) :
  check_of (ch :: bytes)
  = Z.lor (Z.b2z (negb (is_ascii ch))) (Z.shiftl (check_of bytes) 1).
Proof.
  unfold check_of. cbn [map mm_cmplt_epi8_const mm_and_si128_const
                          mm_or_si128 mm_movemask_epi8].
  rewrite testPack_lane. reflexivity.
Qed.

Lemma check_of_nonneg (bytes : list byte) : 0 <= check_of bytes.
Proof.
  induction bytes as [|ch bytes IH].
  - reflexivity.
  - rewrite check_of_cons. apply Z.lor_nonneg. split.
    + destruct (negb (is_ascii ch)); cbn; lia.
    + apply Z.shiftl_nonneg. exact IH.
Qed.

(** The mask is zero exactly when the whole batch is plain; otherwise its
    trailing-zero count is the length of the plain run the batch starts
    with. *)
Lemma check_of_plain_run (bytes : list byte) :
  (check_of bytes = 0 /\ plain_run bytes = length bytes)
  \/ (check_of bytes <> 0
      /\ countTrailingZeroBits (check_of bytes) = Z.of_nat (plain_run bytes)
      /\ (plain_run bytes < length bytes)%nat).
Proof.
  induction bytes as [|ch bytes IH].
  - left. split; reflexivity.
  - rewrite check_of_cons. pose proof (check_of_nonneg bytes) as Hnn.
    cbn [plain_run length].
    destruct (is_ascii ch) eqn:Hch; cbn [negb Z.b2z].
    + rewrite Z.lor_0_l.
      destruct IH as [[Hz Hrun] | (Hnz & Hctz & Hlt)].
      * left. rewrite Hz, Hrun. split; reflexivity.
      * right. destruct (check_of bytes) as [|p|p] eqn:Hc;
          [congruence | | lia].
        cbn [Z.shiftl Pos.iter Z.mul Pos.mul].
        change (Z.pos p * 2) with (Z.pos (p * 2)) in *.
        replace (p * 2)%positive with (p~0)%positive by lia.
        repeat split; [discriminate | | lia].
        cbn [countTrailingZeroBits ctz_pos] in *. lia.
    + right.
      destruct (check_of bytes) as [|p|p] eqn:Hc; [ | | lia].
      * cbn. repeat split; [discriminate | lia].
      * cbn [Z.shiftl Pos.iter Z.mul Pos.mul].
        change (Z.pos p * 2) with (Z.pos (p * 2)).
        replace (p * 2)%positive with (p~0)%positive by lia.
        cbn. repeat split; [discriminate | lia].
Qed.

Lemma plain_run_le_length (bytes : list byte) :
  (plain_run bytes <= length bytes)%nat.
Proof.
  induction bytes as [|ch bytes IH]; cbn; [lia|].
  destruct (is_ascii ch); lia.
Qed.

Lemma plain_run_firstn (n : nat) (bytes : list byte) :
  plain_run (firstn n bytes) = Nat.min n (plain_run bytes).
Proof.
  revert bytes. induction n as [|n IH]; intros [|ch bytes]; cbn; try reflexivity.
  destruct (is_ascii ch); [rewrite IH|]; reflexivity.
Qed.

Lemma plain_run_skipn (k : nat) (bytes : list byte) :
  (k <= plain_run bytes)%nat ->
  plain_run (skipn k bytes) = (plain_run bytes - k)%nat.
Proof.
  revert bytes. induction k as [|k IH]; intros bytes Hk.
  - cbn. lia.
  - destruct bytes as [|ch bytes]; cbn in *; [lia|].
    destruct (is_ascii ch); [apply IH; lia | lia].
Qed.

Lemma plain_run_Forall (bytes : list byte) :
  Forall (fun ch => is_ascii ch = true) bytes ->
  plain_run bytes = length bytes.
Proof.
  induction 1 as [|ch bytes Hch _ IH]; cbn; [reflexivity|].
  rewrite Hch, IH. reflexivity.
Qed.

Lemma Forall_firstn_keep {A : Type} (P : A -> Prop) (n : nat) (l : list A) :
  Forall P l -> Forall P (firstn n l).
Proof.
  intros H. revert n. induction H as [|x l Hx _ IH]; intros [|n]; cbn;
    constructor; auto.
Qed.

Lemma plain_run_prefix_plain (bytes : list byte) :
  Forall (fun ch => is_ascii ch = true) (firstn (plain_run bytes) bytes).
Proof.
  induction bytes as [|ch bytes IH]; cbn; [constructor|].
  destruct (is_ascii ch) eqn:Hch; cbn; constructor; assumption.
Qed.

Lemma plain_run_stops (bytes : list byte) :
  (plain_run bytes < length bytes)%nat ->
  exists ch, nth_error bytes (plain_run bytes) = Some ch /\ is_ascii ch = false.
Proof.
  induction bytes as [|ch bytes IH]; cbn; [lia|].
  destruct (is_ascii ch) eqn:Hch; intros Hlt.
  - apply IH. lia.
  - exists ch. split; [reflexivity | assumption].
Qed.

(** The scalar loop stops at the first byte that is not plain, or at [end]. *)
Lemma scalar_loop_spec (bytes : list byte) (input end_ : Z) :
  input <= end_ ->
  end_ - input <= Z.of_nat (length bytes) ->
  scalar_loop bytes input end_
  = input + Z.min (Z.of_nat (plain_run bytes)) (end_ - input).
Proof.
  revert input. induction bytes as [|ch bytes IH]; intros input Hle Hlen.
  - cbn in *. lia.
  - cbn [scalar_loop plain_run length] in *.
    destruct (input =? end_) eqn:Heq; cbn [negb andb].
    + apply Z.eqb_eq in Heq. lia.
    + apply Z.eqb_neq in Heq. destruct (is_ascii ch).
      * rewrite IH by lia. lia.
      * cbn. lia.
Qed.

(** The vectorised loop only ever skips plain bytes, and never moves past
    [end]. *)
Lemma sse2_loop_spec (fuel : nat) (bytes : list byte) (input end_ : Z) :
  end_ - input <= Z.of_nat (length bytes) ->
  exists k : nat,
    sse2_loop fuel bytes input end_ = (input + Z.of_nat k, skipn k bytes)
    /\ (k <= plain_run bytes)%nat
    /\ (k = O \/ input + Z.of_nat k <= end_).
Proof.
  revert bytes input.
  induction fuel as [|fuel IH]; intros bytes input Hlen.
  - exists O. cbn. rewrite Z.add_0_r. auto with arith.
  - cbn [sse2_loop]. unfold sizeof_m128i.
    destruct (input <? end_ - 16) eqn:Hlt.
    2:{ exists O. cbn. rewrite Z.add_0_r. auto with arith. }
    apply Z.ltb_lt in Hlt.
    unfold mm_loadu_si128. fold (check_of (firstn 16 bytes)).
    assert (Hlen16 : length (firstn 16 bytes) = 16%nat)
      by (rewrite length_firstn; lia).
    pose proof (plain_run_firstn 16 bytes) as Hrun.
    destruct (check_of_plain_run (firstn 16 bytes))
      as [[Hz Hall] | (Hnz & Hctz & Hshort)].
    + rewrite Hz. cbn [Z.eqb negb].
      destruct (IH (skipn 16 bytes) (input + 16)) as (k & Hk & Hrunk & Hend).
      { rewrite length_skipn. lia. }
      exists (k + 16)%nat. rewrite Hk, skipn_skipn.
      rewrite plain_run_skipn in Hrunk by lia.
      split; [f_equal; lia | split; [lia | right; lia]].
    + destruct (check_of (firstn 16 bytes) =? 0) eqn:Hc;
        [apply Z.eqb_eq in Hc; contradiction|].
      cbn [negb]. rewrite Hctz, Nat2Z.id.
      exists (plain_run (firstn 16 bytes)).
      split; [reflexivity | split; [lia | right; lia]].
Qed.

(** The fuel of the vectorised loop does not show in its result once it
    covers the bytes at hand: the loop ends by its own test. *)
Lemma sse2_loop_fuel (fuel fuel' : nat) (bytes : list byte) (input end_ : Z) :
  end_ - input <= Z.of_nat (length bytes) ->
  (length bytes <= fuel)%nat -> (length bytes <= fuel')%nat ->
  sse2_loop fuel bytes input end_ = sse2_loop fuel' bytes input end_.
Proof.
  revert fuel' bytes input.
  induction fuel as [|fuel IH]; intros fuel' bytes input Hlen Hf Hf'.
  - destruct bytes; [|cbn in Hf; lia].
    destruct fuel'; cbn [sse2_loop]; [reflexivity|].
    unfold sizeof_m128i. cbn [length] in Hlen.
    replace (input <? end_ - 16) with false
      by (symmetry; apply Z.ltb_ge; lia).
    reflexivity.
  - cbn [sse2_loop]. unfold sizeof_m128i.
    destruct (input <? end_ - 16) eqn:Hlt.
    + apply Z.ltb_lt in Hlt.
      destruct fuel' as [|fuel']; [lia|].
      cbn [sse2_loop]. unfold sizeof_m128i.
      replace (input <? end_ - 16) with true
        by (symmetry; apply Z.ltb_lt; lia).
      destruct (negb _); [reflexivity|].
      apply IH; rewrite length_skipn; lia.
    + destruct fuel' as [|fuel']; cbn [sse2_loop]; [reflexivity|].
      unfold sizeof_m128i. rewrite Hlt. reflexivity.
Qed.

(** The function computes what the contract says, and so does the scalar
    build. *)
Lemma scan_for_text_ascii_eq (text : list byte) (maxColumnCount : Z) :
  0 <= maxColumnCount ->
  scan_for_text_ascii text maxColumnCount
  = leading_plain_capped text maxColumnCount.
Proof.
  intros HB. unfold scan_for_text_ascii, leading_plain_capped.
  set (end_ := Z.min (Z.of_nat (length text)) maxColumnCount).
  destruct (sse2_loop_spec (length text) text 0 end_) as (k & Hk & Hrun & Hend).
  { subst end_. lia. }
  rewrite Hk. cbn [Z.add].
  pose proof (plain_run_le_length text) as Hle.
  rewrite scalar_loop_spec.
  - rewrite plain_run_skipn by assumption. lia.
  - subst end_. lia.
  - rewrite length_skipn. subst end_. lia.
Qed.

Lemma scan_for_text_ascii_scalar_eq (text : list byte) (maxColumnCount : Z) :
  0 <= maxColumnCount ->
  scan_for_text_ascii_scalar text maxColumnCount
  = leading_plain_capped text maxColumnCount.
Proof.
  intros HB. unfold scan_for_text_ascii_scalar, leading_plain_capped.
  rewrite scalar_loop_spec by lia. lia.
Qed.

(** C8.  For every byte span and every budget (a [size_t], so not negative),
    [scan_for_text_ascii] returns the length of the longest prefix of plain
    bytes, capped at [min(span length, budget)]: the result is the number the
    contract describes, it lies within the cap, every byte before it is
    plain, and below the cap the byte at it is not plain.  The result is a
    byte count and a column count at once, and the function takes and returns
    no scan state.  The build without SSE2 returns the same number. *)
Theorem scan_for_text_ascii_longest_plain_prefix
  (text : list byte) (maxColumnCount : Z) :
  0 <= maxColumnCount ->
  let n := scan_for_text_ascii text maxColumnCount in
  let cap := Z.min (Z.of_nat (length text)) maxColumnCount in
  n = leading_plain_capped text maxColumnCount
  /\ 0 <= n <= cap
  /\ Forall (fun ch => is_ascii ch = true) (firstn (Z.to_nat n) text)
  /\ (n < cap ->
      exists ch, nth_error text (Z.to_nat n) = Some ch /\ is_ascii ch = false)
  /\ scan_for_text_ascii_scalar text maxColumnCount = n.
Proof.
  intros HB n cap. subst n cap.
  rewrite scan_for_text_ascii_eq, scan_for_text_ascii_scalar_eq by assumption.
  unfold leading_plain_capped.
  pose proof (plain_run_le_length text) as Hle.
  set (r := plain_run text) in *.
  split; [reflexivity|]. split; [lia|]. split; [|split; [|reflexivity]].
  - replace (Z.to_nat (Z.min (Z.of_nat r)
               (Z.min (Z.of_nat (length text)) maxColumnCount)))
      with (Nat.min (Z.to_nat maxColumnCount) r) by lia.
    rewrite <- firstn_firstn. apply Forall_firstn_keep.
    subst r. apply plain_run_prefix_plain.
  - intros Hlt.
    replace (Z.to_nat (Z.min (Z.of_nat r)
               (Z.min (Z.of_nat (length text)) maxColumnCount)))
      with r by lia.
    subst r. apply plain_run_stops. lia.
Qed.

Lemma scan_for_text_ascii_longest_plain_prefix_witness :
  0 <= 10
  /\ scan_for_text_ascii [x61; x62; x0a; x63] 10 = 2.
Proof.
  split; [lia|].
  destruct (scan_for_text_ascii_longest_plain_prefix [x61; x62; x0a; x63] 10)
    as (Heq & _); [lia|].
  rewrite Heq. reflexivity.
Defined.

(** ** The complex-span scanner *)

Section ScannerProperties.

Context {C : Collaborators}.

(** The loop does not run on an empty span, nor when the first byte has its
    high bit clear. *)
Lemma nonascii_loop_not_complex (maxColumnCount : Z) (bytes : list byte)
  (v : loop_vars) :
  match bytes with
  | [] => True
  | ch :: _ => is_complex ch = false
  end ->
  nonascii_loop maxColumnCount bytes v = v.
Proof.
  destruct bytes as [|ch bytes]; cbn; [reflexivity|].
  intros ->. rewrite andb_false_r. reflexivity.
Qed.

Lemma is_ascii_not_complex (ch : byte) :
  is_ascii ch = true -> is_complex ch = false.
Proof.
  unfold is_ascii. intros H. apply andb_true_iff in H as [_ H].
  now apply negb_true_iff in H.
Qed.

Lemma is_complex_not_ascii (ch : byte) :
  is_complex ch = true -> is_ascii ch = false.
Proof.
  unfold is_ascii. intros ->. apply andb_false_r.
Qed.

Lemma is_control_not_complex (ch : byte) :
  is_control ch = true -> is_complex ch = false.
Proof.
  destruct ch; vm_compute; congruence.
Qed.

(** One round on a byte the decoder rejects (lines 188-195). *)
Lemma nonascii_body_invalid (maxColumnCount : Z) (ch : byte) (v : loop_vars)
  (u' : utf8_decoder_state) :
  from_utf8 (utf8 (v_state v)) ch = (Invalid, u') ->
  nonascii_body maxColumnCount ch v
  = Continue (mk_loop_vars (mk_scan_state u' 0%N)
                (to_size_t (v_count v + 1)) (v_input v + 1)
                (v_clusterStart v) (v_lastCodepointStart v) 0 0
                (v_resultEnd v)).
Proof.
  unfold nonascii_body. intros ->. reflexivity.
Qed.

(** The scanner on a span that starts with a plain byte, or is empty: nothing
    is consumed and the state is left alone. *)
Lemma scan_for_text_nonascii_not_complex (state : scan_state) (text_data : Z)
  (text : list byte) (maxColumnCount : Z) :
  match text with
  | [] => True
  | ch :: _ => is_complex ch = false
  end ->
  scan_for_text_nonascii state text_data text maxColumnCount
  = (state,
     let resultStart :=
       if negb (expectedLength (utf8 state) =? 0)%N
       then text_data - Z.of_N (currentLength (utf8 state))
       else text_data in
     mk_scan_result 0 text_data resultStart resultStart).
Proof.
  intros H. unfold scan_for_text_nonascii.
  rewrite nonascii_loop_not_complex by assumption. reflexivity.
Qed.

(** [end] is moved by a successfully decoded codepoint only. *)
Lemma nonascii_loop_no_success (maxColumnCount : Z) (bytes : list byte)
  (v : loop_vars) :
  no_success (utf8 (v_state v)) bytes = true ->
  v_resultEnd (nonascii_loop maxColumnCount bytes v) = v_resultEnd v.
Proof.
  revert v. induction bytes as [|ch bytes IH]; intros v Hno; [reflexivity|].
  cbn [nonascii_loop no_success] in *.
  destruct ((v_count v <=? maxColumnCount) && is_complex ch); [|reflexivity].
  unfold nonascii_body.
  destruct (from_utf8 (utf8 (v_state v)) ch) as [[| |c] u'];
    [ | | discriminate]; rewrite IH by exact Hno; reflexivity.
Qed.

(** A run of bytes that the decoder assembles into one codepoint: the loop
    passes over the [Incomplete] answers and reaches the [Success] branch
    with [input] and [byteCount] advanced by the length of the run. *)
Lemma nonascii_loop_decodes (maxColumnCount : Z) (bytes rest : list byte)
  (v : loop_vars) (c : char32_t) (u' : utf8_decoder_state) :
  decodes (utf8 (v_state v)) bytes = Some (c, u') ->
  Forall (fun ch => is_complex ch = true) bytes ->
  v_count v <= maxColumnCount ->
  nonascii_loop maxColumnCount (bytes ++ rest) v
  = match on_success maxColumnCount u' c
            (v_input v + Z.of_nat (length bytes))
            (to_unsigned (v_byteCount v + Z.of_nat (length bytes))) v with
    | Continue v' => nonascii_loop maxColumnCount rest v'
    | Break v' => v'
    end.
Proof.
  revert v. induction bytes as [|ch bytes IH]; intros v Hdec Hcx Hcount;
    [discriminate|].
  inversion Hcx as [|? ? Hch Hcx']; subst.
  cbn [app nonascii_loop]. rewrite Hch.
  replace (v_count v <=? maxColumnCount) with true
    by (symmetry; apply Z.leb_le; exact Hcount).
  cbn [andb]. unfold nonascii_body.
  cbn [decodes] in Hdec.
  destruct (from_utf8 (utf8 (v_state v)) ch) as [[| |c0] u1];
    destruct bytes as [|ch' bytes']; try discriminate.
  - (* Incomplete, more bytes to come *)
    rewrite IH; [ | exact Hdec | exact Hcx' | exact Hcount ].
    cbn [v_input v_byteCount v_state utf8 length].
    replace (v_input v + 1 + Z.of_nat (S (length bytes')))
      with (v_input v + Z.of_nat (S (S (length bytes')))) by lia.
    replace (to_unsigned
               (to_unsigned (v_byteCount v + 1) + Z.of_nat (S (length bytes'))))
      with (to_unsigned (v_byteCount v + Z.of_nat (S (S (length bytes'))))).
    + reflexivity.
    + unfold to_unsigned. rewrite Z.add_mod_idemp_l by lia. f_equal. lia.
  - (* Success on the last byte *)
    injection Hdec as -> ->. reflexivity.
Qed.

(** *** [start <= end] *)

Lemma nonascii_body_resultEnd (maxColumnCount : Z) (ch : byte) (v : loop_vars) :
  let f := nonascii_body maxColumnCount ch v in
  (v_resultEnd (flow_vars f) = v_resultEnd v
   \/ v_resultEnd (flow_vars f) = v_input v + 1)
  /\ (forall v', f = Continue v' -> v_input v' = v_input v + 1).
Proof.
  unfold nonascii_body, on_success.
  destruct (from_utf8 (utf8 (v_state v)) ch) as [[| |c] u'];
    repeat match goal with
      | |- context [if ?b then _ else _] => destruct b
      end;
    cbn; (split; [auto | intros v' Hv'; inversion Hv'; reflexivity]).
Qed.

Lemma nonascii_loop_resultEnd (maxColumnCount : Z) (bytes : list byte)
  (v : loop_vars) (lo : Z) :
  lo <= v_resultEnd v -> lo <= v_input v ->
  lo <= v_resultEnd (nonascii_loop maxColumnCount bytes v).
Proof.
  revert v. induction bytes as [|ch bytes IH]; intros v Hend Hin;
    [exact Hend|].
  cbn [nonascii_loop].
  destruct ((v_count v <=? maxColumnCount) && is_complex ch); [|exact Hend].
  destruct (nonascii_body_resultEnd maxColumnCount ch v) as [Hre Hinp].
  destruct (nonascii_body maxColumnCount ch v) as [v'|v'] eqn:Hbody;
    cbn [flow_vars] in Hre.
  - apply IH; [lia | rewrite (Hinp v' eq_refl); lia].
  - lia.
Qed.

(** The assertion of line 204 holds on every call. *)
Lemma scan_for_text_nonascii_start_le_end (state : scan_state) (text_data : Z)
  (text : list byte) (maxColumnCount : Z) :
  let r := snd (scan_for_text_nonascii state text_data text maxColumnCount) in
  start r <= end_ r.
Proof.
  unfold scan_for_text_nonascii. cbn [snd start end_].
  apply nonascii_loop_resultEnd; cbn [v_resultEnd v_input]; [lia|].
  destruct (negb (expectedLength (utf8 state) =? 0)%N); lia.
Qed.

(** *** How far [count] can pass the budget *)

Lemma nonascii_body_budget_inv (maxColumnCount : Z) (ch : byte)
  (v : loop_vars) :
  budget_inv maxColumnCount v ->
  v_count v <= maxColumnCount ->
  budget_inv maxColumnCount (flow_vars (nonascii_body maxColumnCount ch v)).
Proof.
  unfold budget_inv. intros [Hnn Hinv] Hguard.
  assert (Hflush :
            to_size_t (v_count v + v_currentClusterWidth v) <= maxColumnCount).
  { destruct Hinv as [H | [Hz H]]; [exact H|].
    rewrite Hz, Z.add_0_r. pose proof (to_size_t_le (v_count v) Hnn). lia. }
  unfold nonascii_body, on_success.
  destruct (from_utf8 (utf8 (v_state v)) ch) as [[| |c] u'].
  - (* Invalid *)
    cbn. pose proof (to_size_t_range (v_count v + 1)).
    pose proof (to_size_t_le (v_count v + 1)). split; [lia | right; lia].
  - (* Incomplete *)
    cbn. split; [exact Hnn | exact Hinv].
  - (* Success *)
    pose proof (to_size_t_range (v_count v + v_currentClusterWidth v)) as Hr.
    destruct (breakable (lastCodepointHint (v_state v)) c).
    + destruct (_ >? maxColumnCount) eqn:Hgt; cbn.
      * split; [lia | left]. rewrite Z.add_0_r.
        pose proof (to_size_t_le
                      (to_size_t (v_count v + v_currentClusterWidth v))).
        lia.
      * split; [lia | left].
        rewrite Z.gtb_ltb in Hgt. apply Z.ltb_ge in Hgt. exact Hgt.
    + destruct (c =? VS16)%N.
      * destruct (_ >? maxColumnCount) eqn:Hgt; cbn.
        -- split; [exact Hnn | right; lia].
        -- split; [exact Hnn | left].
           rewrite Z.gtb_ltb in Hgt. apply Z.ltb_ge in Hgt. exact Hgt.
      * cbn. split; [exact Hnn | exact Hinv].
Qed.

Lemma nonascii_loop_budget_inv (maxColumnCount : Z) (bytes : list byte)
  (v : loop_vars) :
  budget_inv maxColumnCount v ->
  budget_inv maxColumnCount (nonascii_loop maxColumnCount bytes v).
Proof.
  revert v. induction bytes as [|ch bytes IH]; intros v Hinv; [exact Hinv|].
  cbn [nonascii_loop].
  destruct (v_count v <=? maxColumnCount) eqn:Hguard; [|exact Hinv].
  destruct (is_complex ch); cbn [andb]; [|exact Hinv].
  apply Z.leb_le in Hguard.
  pose proof (nonascii_body_budget_inv maxColumnCount ch v Hinv Hguard) as H.
  destruct (nonascii_body maxColumnCount ch v) as [v'|v'];
    cbn [flow_vars] in H; [apply IH|]; exact H.
Qed.

(** The complex-span scanner never reports more than one column above its
    budget. *)
Lemma scan_for_text_nonascii_count_bound (state : scan_state) (text_data : Z)
  (text : list byte) (maxColumnCount : Z) :
  0 <= maxColumnCount ->
  let r := snd (scan_for_text_nonascii state text_data text maxColumnCount) in
  0 <= count r <= maxColumnCount + 1.
Proof.
  intros HB. unfold scan_for_text_nonascii. cbn [snd count].
  match goal with
  | |- context [nonascii_loop _ _ ?v0] =>
      destruct (nonascii_loop_budget_inv maxColumnCount text v0) as [Hnn Hinv]
  end.
  { unfold budget_inv. cbn. split; [lia | left].
    change (to_size_t 0) with 0. lia. }
  match goal with
  | |- context [to_size_t ?x] => pose proof (to_size_t_range x) as Hr
  end.
  split; [lia|].
  destruct Hinv as [H | [Hz H]]; [lia|].
  rewrite Hz, Z.add_0_r in *.
  match goal with
  | |- to_size_t ?x <= _ => pose proof (to_size_t_le x Hnn)
  end.
  lia.
Qed.

(** ** Views onto the buffer *)

Lemma bytes_of_Some (mem : list byte) (text : string_view)
  (bytes : list byte) :
  bytes_of mem text = Some bytes ->
  0 <= data text
  /\ size text = Z.of_nat (length bytes)
  /\ view_end text <= Z.of_nat (length mem)
  /\ bytes = firstn (Z.to_nat (size text)) (skipn (Z.to_nat (data text)) mem).
Proof.
  unfold bytes_of.
  destruct (0 <=? data text) eqn:Hd; [|discriminate].
  destruct (0 <=? size text) eqn:Hs; [|discriminate].
  destruct (view_end text <=? Z.of_nat (length mem)) eqn:He; [|discriminate].
  cbn [andb]. intros [= <-].
  apply Z.leb_le in Hd, Hs, He. unfold view_end in *.
  rewrite length_firstn, length_skipn. repeat split; try lia.
Qed.

Lemma bytes_of_whole (mem : list byte) :
  bytes_of mem (mk_string_view 0 (Z.of_nat (length mem))) = Some mem.
Proof.
  unfold bytes_of, view_end. cbn [data size].
  rewrite Z.leb_refl.
  replace (0 <=? Z.of_nat (length mem)) with true
    by (symmetry; apply Z.leb_le; lia).
  cbn [andb Z.add Z.to_nat skipn]. rewrite Z.leb_refl, Nat2Z.id, firstn_all.
  reflexivity.
Qed.

(** Dropping a prefix of a valid view gives the valid view of the rest. *)
Lemma bytes_of_suffix (mem : list byte) (text : string_view)
  (bytes : list byte) (k : Z) :
  bytes_of mem text = Some bytes ->
  0 <= k <= size text ->
  bytes_of mem (mk_string_view (data text + k) (size text - k))
  = Some (skipn (Z.to_nat k) bytes).
Proof.
  intros Hb Hk. destruct (bytes_of_Some _ _ _ Hb) as (Hd & Hs & He & ->).
  unfold bytes_of, view_end in *. cbn [data size].
  replace (0 <=? data text + k) with true by (symmetry; apply Z.leb_le; lia).
  replace (0 <=? size text - k) with true by (symmetry; apply Z.leb_le; lia).
  replace (data text + k + (size text - k) <=? Z.of_nat (length mem))
    with true by (symmetry; apply Z.leb_le; lia).
  cbn [andb]. f_equal.
  rewrite skipn_firstn_comm, skipn_skipn. f_equal; [lia | f_equal; lia].
Qed.

Lemma front_of_bytes (mem : list byte) (text : string_view) (ch : byte)
  (rest : list byte) :
  bytes_of mem text = Some (ch :: rest) ->
  front mem text = Some ch.
Proof.
  intros Hb. destruct (bytes_of_Some _ _ _ Hb) as (Hd & Hs & He & Heq).
  unfold front. cbn [length] in Hs.
  replace (size text =? 0) with false by (symmetry; apply Z.eqb_neq; lia).
  replace (data text <? 0) with false by (symmetry; apply Z.ltb_ge; lia).
  cbn [orb]. rewrite <- hd_error_skipn.
  destruct (skipn (Z.to_nat (data text)) mem) as [|x l].
  - rewrite firstn_nil in Heq. discriminate.
  - destruct (Z.to_nat (size text)) as [|n] eqn:Hn; [lia|].
    cbn in Heq. injection Heq as -> _. reflexivity.
Qed.

(** [front] on an empty view is undefined, whatever the buffer holds. *)
Lemma front_empty (mem : list byte) (d : Z) :
  front mem (mk_string_view d 0) = None.
Proof.
  reflexivity.
Qed.

(** ** The driver always terminates *)

Lemma scan_loop_fuel (fuel : nat) (mem : list byte) (maxColumnCount : Z)
  (nextState : NextState) (state : scan_state) (result : scan_result)
  (text : string_view) :
  (2 * Z.to_nat (size text)
   + match nextState with Trivial => 1 | Complex => 2 end <= fuel)%nat ->
  scan_loop fuel mem maxColumnCount nextState state result text <> OutOfFuel.
Proof.
  revert nextState state result text.
  induction fuel as [|fuel IH]; intros nextState state result text Hfuel.
  - destruct nextState; lia.
  - cbn [scan_loop].
    destruct ((count result <? maxColumnCount)
              && negb (next result =? view_end text)); [|discriminate].
    destruct (bytes_of mem text) as [bytes|] eqn:Hb; [|discriminate].
    destruct (bytes_of_Some _ _ _ Hb) as (Hd & Hs & He & _).
    destruct nextState.
    + (* Trivial *)
      set (budget := to_size_t (maxColumnCount - count result)).
      pose proof (to_size_t_range (maxColumnCount - count result)) as Hr.
      fold budget in Hr.
      rewrite scan_for_text_ascii_eq by lia.
      pose proof (plain_run_le_length bytes) as Hrun.
      unfold leading_plain_capped.
      set (n := Z.min _ _).
      destruct (n =? 0) eqn:Hn; [discriminate|]. apply Z.eqb_neq in Hn.
      unfold remove_prefix.
      destruct (n <=? size text) eqn:Hle; [|discriminate].
      apply IH. cbn [size]. subst n. lia.
    + (* Complex *)
      destruct (scan_for_text_nonascii state (data text) bytes _)
        as [state' sub].
      unfold remove_prefix.
      pose proof (to_size_t_range (end_ sub - start sub)) as Hr.
      destruct (_ <=? size text) eqn:Hle; [|discriminate].
      apply Z.leb_le in Hle.
      apply IH. cbn [size]. lia.
Qed.

(** The loop fuel is a device of the embedding only: no call uses it up. *)
Lemma scan_for_text_fuel_sufficient (mem : list byte) (state : scan_state)
  (text : string_view) (maxColumnCount : Z) :
  scan_for_text mem state text maxColumnCount <> OutOfFuel.
Proof.
  unfold scan_for_text.
  destruct (negb (expectedLength (utf8 state) =? 0)%N).
  - destruct (bytes_of mem text) as [bytes|]; [|discriminate].
    destruct (scan_for_text_nonascii state (data text) bytes maxColumnCount)
      as [state' result].
    destruct (front mem _) as [ch|]; [|discriminate].
    apply scan_loop_fuel. unfold loop_fuel. destruct (is_complex ch); lia.
  - destruct (front mem text) as [ch|]; [|discriminate].
    apply scan_loop_fuel. unfold loop_fuel. destruct (is_complex ch); lia.
Qed.

(** ** Malformed input *)

(** A rejected first byte followed by nothing, or by a byte with its high bit
    clear: one column is counted, [next] is past the byte, [end] is not. *)
Lemma scan_for_text_nonascii_invalid_then_plain (state : scan_state)
  (text_data : Z) (ch : byte) (rest : list byte) (maxColumnCount : Z)
  (u' : utf8_decoder_state) :
  expectedLength (utf8 state) = 0%N ->
  is_complex ch = true ->
  from_utf8 (utf8 state) ch = (Invalid, u') ->
  match rest with
  | [] => True
  | ch' :: _ => is_complex ch' = false
  end ->
  0 <= maxColumnCount ->
  scan_for_text_nonascii state text_data (ch :: rest) maxColumnCount
  = (mk_scan_state u' 0%N,
     mk_scan_result 1 (text_data + 1) text_data text_data).
Proof.
  intros Hexp Hcx Hinv Hrest HB.
  unfold scan_for_text_nonascii. rewrite Hexp. cbn [N.eqb negb nonascii_loop].
  cbn [v_count]. rewrite Hcx.
  replace (0 <=? maxColumnCount) with true by (symmetry; apply Z.leb_le; lia).
  cbn [andb]. erewrite nonascii_body_invalid by (cbn [v_state]; exact Hinv).
  rewrite nonascii_loop_not_complex by exact Hrest.
  reflexivity.
Qed.

(** C3.  The code at an invalid lead byte followed by plain ASCII text: for
    every budget of at least 1 the driver returns one column for the invalid
    byte, [next] just past it and [end] still at the start of the span.  The
    following ASCII text adds neither columns nor bytes to this result: the
    complex-span scanner leaves [end] at [start], so the driver removes no
    prefix, the ASCII scanner is handed the invalid byte again and returns 0,
    and the driver returns (line 244). *)
Theorem scan_for_text_stops_after_invalid_lead_byte
  (mem : list byte) (text : string_view) (state : scan_state) (ch : byte)
  (rest : list byte) (u' : utf8_decoder_state) (maxColumnCount : Z) :
  bytes_of mem text = Some (ch :: rest) ->
  expectedLength (utf8 state) = 0%N ->
  is_complex ch = true ->
  from_utf8 (utf8 state) ch = (Invalid, u') ->
  Forall (fun ch' => is_ascii ch' = true) rest ->
  1 <= maxColumnCount <= size_t_max ->
  scan_for_text mem state text maxColumnCount
  = Returns (mk_scan_state u' 0%N,
             mk_scan_result 1 (data text + 1) (data text) (data text)).
Proof.
  intros Hb Hexp Hcx Hinv Hrest HB.
  destruct (bytes_of_Some _ _ _ Hb) as (Hd & Hs & He & _).
  cbn [length] in Hs.
  assert (Hrest' : match rest with
                   | [] => True
                   | ch' :: _ => is_complex ch' = false
                   end).
  { destruct Hrest as [|ch' rest' Hch' _]; [exact I|].
    apply is_ascii_not_complex, Hch'. }
  unfold scan_for_text. rewrite Hexp. cbn [N.eqb negb].
  rewrite (front_of_bytes _ _ _ _ Hb), Hcx.
  replace (loop_fuel text) with (S (S (2 * Z.to_nat (size text) )))
    by (unfold loop_fuel; lia).
  cbn [scan_loop count next]. unfold view_end.
  replace (0 <? maxColumnCount) with true by (symmetry; apply Z.ltb_lt; lia).
  replace (data text =? data text + size text) with false
    by (symmetry; apply Z.eqb_neq; lia).
  cbn [andb negb]. rewrite Hb, Z.sub_0_r, to_size_t_small by lia.
  rewrite (scan_for_text_nonascii_invalid_then_plain _ _ _ _ _ u')
    by (assumption || lia).
  cbn [start end_ count next]. rewrite Z.sub_diag.
  change (to_size_t 0) with 0. change (to_size_t (0 + 1)) with 1.
  unfold remove_prefix.
  replace (0 <=? size text) with true by (symmetry; apply Z.leb_le; lia).
  rewrite Z.add_0_r, Z.sub_0_r. cbn [data size].
  destruct ((1 <? maxColumnCount)
            && negb (data text + 1 =? data text + size text)); [|reflexivity].
  replace (mk_string_view (data text) (size text)) with text
    by (destruct text; reflexivity).
  rewrite Hb.
  pose proof (to_size_t_range (maxColumnCount - 1)) as Hr.
  rewrite scan_for_text_ascii_eq by lia.
  unfold leading_plain_capped. cbn [plain_run].
  rewrite (is_complex_not_ascii _ Hcx).
  cbn [Z.of_nat].
  replace (Z.min 0 _) with 0 by lia.
  reflexivity.
Qed.

(** C9.  The code on a zero-length span: when no multi-byte sequence is
    pending the driver goes straight to [text.front()] (line 236), which is
    undefined on an empty view; nothing guards that read, for any buffer,
    position and budget. *)
Theorem scan_for_text_empty_span_undefined
  (mem : list byte) (state : scan_state) (d maxColumnCount : Z) :
  expectedLength (utf8 state) = 0%N ->
  scan_for_text mem state (mk_string_view d 0) maxColumnCount = Undefined.
Proof.
  intros Hexp. unfold scan_for_text. rewrite Hexp. reflexivity.
Qed.

(** C10 (amended).  A byte on which the decoder reports [Invalid] is counted
    as one column and moves [input], the value returned as [next] when no
    rewind follows, past it, and does not itself move [end]; [end] moves only
    when a codepoint is decoded successfully, so a call in which none is
    returns [end = start]; and for a span that is a single invalid byte,
    scanned with no sequence pending, the result is [count = 1],
    [end = start] and [next = start + 1]. *)
Theorem invalid_byte_counts_one_column_and_leaves_end :
  (forall (maxColumnCount : Z) (ch : byte) (v : loop_vars)
          (u' : utf8_decoder_state),
      from_utf8 (utf8 (v_state v)) ch = (Invalid, u') ->
      exists v',
        nonascii_body maxColumnCount ch v = Continue v'
        /\ v_count v' = to_size_t (v_count v + 1)
        /\ v_input v' = v_input v + 1
        /\ v_resultEnd v' = v_resultEnd v)
  /\ (forall (state : scan_state) (text_data : Z) (text : list byte)
             (maxColumnCount : Z),
         no_success (utf8 state) text = true ->
         let r := snd (scan_for_text_nonascii state text_data text
                         maxColumnCount) in
         end_ r = start r)
  /\ (forall (state : scan_state) (text_data : Z) (ch : byte)
             (maxColumnCount : Z) (u' : utf8_decoder_state),
         expectedLength (utf8 state) = 0%N ->
         is_complex ch = true ->
         from_utf8 (utf8 state) ch = (Invalid, u') ->
         0 <= maxColumnCount ->
         let r := snd (scan_for_text_nonascii state text_data [ch]
                         maxColumnCount) in
         count r = 1 /\ end_ r = start r /\ start r = text_data
         /\ next r = text_data + 1).
Proof.
  split; [|split].
  - intros maxColumnCount ch v u' Hinv.
    rewrite (nonascii_body_invalid _ _ _ _ Hinv).
    eexists. split; [reflexivity|]. cbn. auto.
  - intros state text_data text maxColumnCount Hno.
    unfold scan_for_text_nonascii. cbn [snd end_ start].
    rewrite nonascii_loop_no_success by exact Hno. reflexivity.
  - intros state text_data ch maxColumnCount u' Hexp Hcx Hinv HB.
    rewrite (scan_for_text_nonascii_invalid_then_plain _ _ _ _ _ u')
      by (assumption || exact I).
    cbn. auto.
Qed.

(** ** Plain ASCII input *)

(** C5 (amended).  On a span of plain ASCII bytes the two scanners agree only
    when the span is empty or the budget is 0: the fast path returns
    [min(span length, budget)] columns and bytes, while the complex-span
    scanner, whose loop runs only on bytes with the high bit set, returns at
    once with [count = 0], nothing consumed and the state untouched. *)
Theorem ascii_and_complex_scanners_on_plain_text
  (text : list byte) (text_data maxColumnCount : Z) :
  Forall (fun ch => is_ascii ch = true) text ->
  0 <= maxColumnCount ->
  scan_for_text_ascii text maxColumnCount
  = Z.min (Z.of_nat (length text)) maxColumnCount
  /\ scan_for_text_nonascii fresh_state text_data text maxColumnCount
     = (fresh_state, mk_scan_result 0 text_data text_data text_data)
  /\ (scan_for_text_ascii text maxColumnCount
      = count (snd (scan_for_text_nonascii fresh_state text_data text
                      maxColumnCount))
      <-> text = [] \/ maxColumnCount = 0).
Proof.
  intros Hplain HB.
  assert (Hascii : scan_for_text_ascii text maxColumnCount
                   = Z.min (Z.of_nat (length text)) maxColumnCount).
  { rewrite scan_for_text_ascii_eq by exact HB.
    unfold leading_plain_capped. rewrite (plain_run_Forall _ Hplain). lia. }
  assert (Hcomplex : scan_for_text_nonascii fresh_state text_data text
                       maxColumnCount
                     = (fresh_state,
                        mk_scan_result 0 text_data text_data text_data)).
  { rewrite scan_for_text_nonascii_not_complex; [reflexivity|].
    destruct Hplain as [|ch rest Hch _]; [exact I|].
    apply is_ascii_not_complex, Hch. }
  split; [exact Hascii | split; [exact Hcomplex|]].
  rewrite Hascii, Hcomplex. cbn [snd count].
  destruct text as [|ch rest]; cbn [length].
  - split; intros _; [left; reflexivity | cbn; lia].
  - split; intros H.
    + right. lia.
    + destruct H as [H | H]; [discriminate | lia].
Qed.

(** ** Variation selector 16 *)

(** Evaluate the [size_t] operations whose operands are numerals. *)
Ltac closed_pos p :=
  match p with
  | xH => idtac
  | xO ?q => closed_pos q
  | xI ?q => closed_pos q
  end.

Ltac closed_num x :=
  match x with
  | Z0 => idtac
  | Zpos ?p => closed_pos p
  | to_size_t ?a => closed_num a
  | Z.add ?a ?b => closed_num a; closed_num b
  | Z.sub ?a ?b => closed_num a; closed_num b
  | Z.max ?a ?b => closed_num a; closed_num b
  end.

Ltac eval_size_t :=
  repeat match goal with
    | |- context [to_size_t ?x] =>
        closed_num x;
        let y := eval vm_compute in (to_size_t x) in
        progress change (to_size_t x) with y
    end.

(** The complex-span scanner on a narrow base codepoint followed by U+FE0F,
    from a fresh state, for the budgets 1 and 2. *)
Lemma scan_for_text_nonascii_base_vs16 (text_data : Z)
  (base selector : list byte) (b : char32_t) (u1 u2 : utf8_decoder_state)
  (maxColumnCount : Z) :
  decodes (utf8 fresh_state) base = Some (b, u1) ->
  decodes u1 selector = Some (VS16, u2) ->
  Forall (fun ch => is_complex ch = true) base ->
  Forall (fun ch => is_complex ch = true) selector ->
  width b = 1 ->
  breakable 0%N b = true ->
  breakable b VS16 = false ->
  maxColumnCount = 1 \/ maxColumnCount = 2 ->
  let past := text_data + Z.of_nat (length (base ++ selector)) in
  scan_for_text_nonascii fresh_state text_data (base ++ selector)
    maxColumnCount
  = (mk_scan_state u2 VS16,
     if maxColumnCount =? 2
     then mk_scan_result 2 past text_data past
     else mk_scan_result 0 text_data text_data past).
Proof.
  intros Hbase Hsel Hcb Hcs Hw Hb0 Hbv HB past. subst past.
  unfold scan_for_text_nonascii.
  cbn [fresh_state utf8 expectedLength N.eqb negb].
  fold fresh_state.
  set (v0 := mk_loop_vars fresh_state 0 text_data text_data text_data 0 0
               text_data).
  assert (Hloop : exists cs lcs bc,
             nonascii_loop maxColumnCount (base ++ selector) v0
             = mk_loop_vars (mk_scan_state u2 VS16) 0
                 (if maxColumnCount =? 2
                  then text_data + Z.of_nat (length (base ++ selector))
                  else text_data)
                 cs lcs bc
                 (if maxColumnCount =? 2 then 2 else 0)
                 (text_data + Z.of_nat (length (base ++ selector)))).
  { destruct HB as [-> | ->]; do 3 eexists;
      (rewrite (nonascii_loop_decodes _ _ _ _ b u1);
       [ | exact Hbase | exact Hcb | cbn [v0 v_count]; lia ]);
      unfold on_success;
      cbn [v0 v_state lastCodepointHint v_currentClusterWidth v_count v_input
             v_byteCount v_lastCodepointStart v_clusterStart v_resultEnd];
      change (lastCodepointHint fresh_state) with 0%N;
      rewrite Hb0, Hw; eval_size_t; cbn [Z.max Z.compare Z.add];
      try change (1 >? 1) with false; try change (1 >? 2) with false;
      cbn iota;
      rewrite <- (app_nil_r selector) at 1;
      (rewrite (nonascii_loop_decodes _ _ _ _ VS16 u2);
       [ | exact Hsel | exact Hcs | cbn [v_count]; lia ]);
      unfold on_success;
      cbn [v_state lastCodepointHint v_currentClusterWidth v_count v_input
             v_byteCount v_lastCodepointStart v_clusterStart v_resultEnd];
      rewrite Hbv; change (VS16 =? VS16)%N with true; cbn iota; eval_size_t;
      rewrite length_app, Nat2Z.inj_add, Z.add_assoc;
      cbn; reflexivity. }
  destruct Hloop as (cs & lcs & bc & ->).
  cbn [v_state v_count v_currentClusterWidth v_input v_resultEnd].
  destruct HB as [-> | ->]; reflexivity.
Qed.

(** The complex-span scanner and the driver on a narrow base codepoint
    encoded outside ASCII and followed by U+FE0F, from a fresh scan state, for
    the budgets 2 and 1. *)
Lemma scan_for_text_base_vs16
  (mem : list byte) (text : string_view) (base selector : list byte)
  (b : char32_t) (u1 u2 : utf8_decoder_state) :
  bytes_of mem text = Some (base ++ selector) ->
  size text <= size_t_max ->
  decodes (utf8 fresh_state) base = Some (b, u1) ->
  decodes u1 selector = Some (VS16, u2) ->
  Forall (fun ch => is_complex ch = true) base ->
  Forall (fun ch => is_complex ch = true) selector ->
  width b = 1 ->
  breakable 0%N b = true ->
  breakable b VS16 = false ->
  let d := data text in
  let past := d + Z.of_nat (length (base ++ selector)) in
  (scan_for_text_nonascii fresh_state d (base ++ selector) 2
   = (mk_scan_state u2 VS16, mk_scan_result 2 past d past)
   /\ scan_for_text mem fresh_state text 2
      = Returns (mk_scan_state u2 VS16, mk_scan_result 2 past d past))
  /\ (scan_for_text_nonascii fresh_state d (base ++ selector) 1
      = (mk_scan_state u2 VS16, mk_scan_result 0 d d past)
      /\ scan_for_text mem fresh_state text 1
         = Returns (mk_scan_state u2 VS16, mk_scan_result 0 d d past)).
Proof.
  intros Hb Hsize Hbase Hsel Hcb Hcs Hw Hb0 Hbv d past.
  destruct (bytes_of_Some _ _ _ Hb) as (Hd & Hs & He & _).
  pose proof (scan_for_text_nonascii_base_vs16 d base selector b u1 u2 2
                Hbase Hsel Hcb Hcs Hw Hb0 Hbv (or_intror eq_refl)) as H2.
  pose proof (scan_for_text_nonascii_base_vs16 d base selector b u1 u2 1
                Hbase Hsel Hcb Hcs Hw Hb0 Hbv (or_introl eq_refl)) as H1.
  cbn [Z.eqb Pos.eqb] in H1, H2. fold past in H1, H2.
  assert (Hfront : exists ch0, front mem text = Some ch0
                               /\ is_complex ch0 = true).
  { destruct base as [|ch0 base']; [discriminate|].
    exists ch0. split; [exact (front_of_bytes _ _ _ _ Hb)|].
    inversion Hcb; assumption. }
  destruct Hfront as (ch0 & Hfront & Hch0).
  assert (Hlen : 1 <= size text).
  { destruct base as [|ch0' base']; [discriminate|].
    rewrite Hs. cbn [app length]. lia. }
  assert (Hpast : past - d = size text) by (subst past d; lia).
  split; (split; [assumption|]).
  - unfold scan_for_text.
    cbn [fresh_state utf8 expectedLength N.eqb negb].
    rewrite Hfront, Hch0.
    replace (loop_fuel text) with (S (S (2 * Z.to_nat (size text))))
      by (unfold loop_fuel; lia).
    cbn [scan_loop count next]. unfold view_end.
    replace (data text =? data text + size text) with false
      by (symmetry; apply Z.eqb_neq; lia).
    cbn [Z.ltb Z.compare andb negb]. rewrite Hb.
    change (to_size_t (2 - 0)) with 2. fold d. rewrite H2.
    cbn [start end_ count next]. rewrite Hpast, to_size_t_small by lia.
    unfold remove_prefix. rewrite Z.leb_refl. reflexivity.
  - unfold scan_for_text.
    cbn [fresh_state utf8 expectedLength N.eqb negb].
    rewrite Hfront, Hch0.
    replace (loop_fuel text) with (S (S (2 * Z.to_nat (size text))))
      by (unfold loop_fuel; lia).
    cbn [scan_loop count next]. unfold view_end.
    replace (data text =? data text + size text) with false
      by (symmetry; apply Z.eqb_neq; lia).
    cbn [Z.ltb Z.compare andb negb]. rewrite Hb.
    change (to_size_t (1 - 0)) with 1. fold d. rewrite H1.
    cbn [start end_ count next]. rewrite Hpast, to_size_t_small by lia.
    unfold remove_prefix. rewrite Z.leb_refl. cbn [data size].
    change (to_size_t (0 + 0)) with 0.
    replace (d =? data text + size text + (size text - size text)) with false
      by (symmetry; apply Z.eqb_neq; subst d; lia).
    cbn [Z.ltb Z.compare andb negb].
    rewrite (bytes_of_suffix _ _ _ (size text) Hb) by lia.
    rewrite skipn_all2 by lia.
    reflexivity.
Qed.

(** C6 (amended).  A width-1 base codepoint encoded outside ASCII (every byte
    of [base] has the high bit set) immediately followed by U+FE0F, scanned
    from a fresh scan state; the start of the stream is a cluster boundary
    and the selector continues the cluster.  With budget 2 the complex-span
    scanner and the driver report [count = 2] and consume both codepoints as
    one cluster, [end] and [next] past the selector.  With budget 1 they
    report [count = 0] and rewind [next] to the start of the cluster; the
    stored [end] is the one set before the rewind. *)
Theorem vs16_widens_cluster_to_two_columns
  (mem : list byte) (text : string_view) (base selector : list byte)
  (b : char32_t) (u1 u2 : utf8_decoder_state) :
  bytes_of mem text = Some (base ++ selector) ->
  size text <= size_t_max ->
  decodes (utf8 fresh_state) base = Some (b, u1) ->
  decodes u1 selector = Some (VS16, u2) ->
  Forall (fun ch => is_complex ch = true) base ->
  Forall (fun ch => is_complex ch = true) selector ->
  width b = 1 ->
  breakable 0%N b = true ->
  breakable b VS16 = false ->
  let d := data text in
  let past := d + Z.of_nat (length (base ++ selector)) in
  (scan_for_text_nonascii fresh_state d (base ++ selector) 2
   = (mk_scan_state u2 VS16, mk_scan_result 2 past d past)
   /\ scan_for_text mem fresh_state text 2
      = Returns (mk_scan_state u2 VS16, mk_scan_result 2 past d past))
  /\ (scan_for_text_nonascii fresh_state d (base ++ selector) 1
      = (mk_scan_state u2 VS16, mk_scan_result 0 d d past)
      /\ scan_for_text mem fresh_state text 1
         = Returns (mk_scan_state u2 VS16, mk_scan_result 0 d d past)).
Proof.
  intros Hb Hsize Hbase Hsel Hcb Hcs Hw Hb0 Hbv.
  exact (scan_for_text_base_vs16 mem text base selector b u1 u2
           Hb Hsize Hbase Hsel Hcb Hcs Hw Hb0 Hbv).
Qed.

(** ** The driver on plain ASCII streams *)

(** One call on a non-empty span of plain bytes, no sequence pending: the
    fast path takes [min(size, budget)] bytes and the loop ends. *)
Lemma scan_for_text_plain (mem : list byte) (text : string_view)
  (state : scan_state) (bytes : list byte) (maxColumnCount : Z) :
  bytes_of mem text = Some bytes ->
  bytes <> [] ->
  Forall (fun ch => is_ascii ch = true) bytes ->
  expectedLength (utf8 state) = 0%N ->
  0 <= maxColumnCount <= size_t_max ->
  let n := Z.min (size text) maxColumnCount in
  scan_for_text mem state text maxColumnCount
  = Returns (state,
             mk_scan_result n (data text + n) (data text) (data text + n)).
Proof.
  intros Hb Hne Hplain Hexp HB n.
  destruct (bytes_of_Some _ _ _ Hb) as (Hd & Hs & He & _).
  assert (Hlen : 1 <= size text).
  { destruct bytes; [contradiction | cbn [length] in Hs; lia]. }
  assert (Hfront : exists ch0, front mem text = Some ch0
                               /\ is_complex ch0 = false).
  { destruct bytes as [|ch0 rest]; [contradiction|].
    exists ch0. split; [exact (front_of_bytes _ _ _ _ Hb)|].
    apply is_ascii_not_complex. inversion Hplain; assumption. }
  destruct Hfront as (ch0 & Hfront & Hch0).
  unfold scan_for_text. rewrite Hexp. cbn [N.eqb negb].
  rewrite Hfront.
  rewrite Hch0.
  replace (loop_fuel text) with (S (S (2 * Z.to_nat (size text))))
    by (unfold loop_fuel; lia).
  cbn [scan_loop count next]. unfold view_end.
  replace (data text =? data text + size text) with false
    by (symmetry; apply Z.eqb_neq; lia).
  cbn [negb]. rewrite andb_true_r.
  destruct (0 <? maxColumnCount) eqn:Hpos.
  2:{ apply Z.ltb_ge in Hpos. subst n.
      replace (Z.min (size text) maxColumnCount) with 0 by lia.
      rewrite Z.add_0_r. reflexivity. }
  apply Z.ltb_lt in Hpos.
  rewrite Hb, Z.sub_0_r, to_size_t_small by lia.
  rewrite scan_for_text_ascii_eq by lia.
  unfold leading_plain_capped. rewrite (plain_run_Forall _ Hplain), <- Hs.
  replace (Z.min (size text) (Z.min (size text) maxColumnCount)) with n
    by (subst n; lia).
  replace (n =? 0) with false by (symmetry; apply Z.eqb_neq; subst n; lia).
  unfold remove_prefix.
  replace (n <=? size text) with true
    by (symmetry; apply Z.leb_le; subst n; lia).
  cbn [count next start end_ data size].
  rewrite to_size_t_small by (subst n; lia). cbn [Z.add].
  replace ((n <? maxColumnCount)
           && negb (data text + n =? data text + n + (size text - n)))
    with false; [reflexivity|].
  symmetry. apply andb_false_iff.
  destruct (Z.eq_dec n maxColumnCount) as [Heq | Hneq].
  - left. apply Z.ltb_ge. lia.
  - right. apply negb_false_iff, Z.eqb_eq. subst n. lia.
Qed.

(** ** Resuming a scan on a stream of clusters *)

Lemma stream_bytes_app (a b : list item) :
  stream_bytes (a ++ b) = stream_bytes a ++ stream_bytes b.
Proof.
  unfold stream_bytes. apply flat_map_app.
Qed.

Lemma stream_columns_app (a b : list item) :
  stream_columns (a ++ b) = stream_columns a + stream_columns b.
Proof.
  induction a as [|it a IH]; cbn [app stream_columns]; lia.
Qed.

Lemma stream_codepoints_app (a b : list item) :
  stream_codepoints (a ++ b) = stream_codepoints a ++ stream_codepoints b.
Proof.
  induction a as [|[ch|bytes c] a IH]; cbn [app stream_codepoints];
    [reflexivity | exact IH | now rewrite IH].
Qed.

Section Streams.

Variable prevs : list char32_t.

Local Abbreviation wf := (well_formed prevs).

Lemma well_formed_columns (it : item) :
  wf it -> 1 <= item_columns it <= 2.
Proof.
  destruct it as [ch|bytes c]; cbn; [lia | tauto].
Qed.

Lemma well_formed_bytes (it : item) :
  wf it -> exists ch rest, item_bytes it = ch :: rest
                           /\ is_complex ch
                              = match it with
                                | Plain _ => false
                                | Codepoint _ _ => true
                                end.
Proof.
  destruct it as [ch|bytes c]; cbn.
  - intros H. exists ch, []. split; [reflexivity|].
    now apply is_ascii_not_complex.
  - intros (Hcx & _ & Hdec & _).
    destruct (Hdec (utf8 fresh_state) eq_refl) as (u' & Hdec' & _).
    destruct bytes as [|ch rest]; [discriminate|].
    exists ch, rest. split; [reflexivity|]. now inversion Hcx.
Qed.

Lemma stream_columns_nonneg (items : list item) :
  Forall wf items -> 0 <= stream_columns items.
Proof.
  induction 1 as [|it items Hit _ IH]; cbn [stream_columns]; [lia|].
  pose proof (well_formed_columns _ Hit). lia.
Qed.

Lemma stream_bytes_nil (items : list item) :
  Forall wf items -> stream_bytes items = [] -> items = [].
Proof.
  intros Hwf. destruct Hwf as [|it items Hit _]; [reflexivity|].
  cbn. destruct (well_formed_bytes _ Hit) as (ch & rest & -> & _).
  discriminate.
Qed.

Lemma widths_ascend_weaken (w w' : Z) (items : list item) :
  w <= w' -> widths_ascend w' items -> widths_ascend w items.
Proof.
  destruct items as [|[ch|bytes c] items]; cbn; [tauto | tauto |].
  intros Hle [Hw H]. split; [lia | exact H].
Qed.

Lemma widths_ascend_suffix (w : Z) (a b : list item) :
  Forall wf a -> 0 <= w ->
  widths_ascend w (a ++ b) -> widths_ascend 0 b.
Proof.
  intros Hwf. revert w.
  induction Hwf as [|it a Hit _ IH]; intros w Hw; cbn [app].
  - apply widths_ascend_weaken. exact Hw.
  - destruct it as [ch|bytes c]; cbn [widths_ascend].
    + apply IH. lia.
    + intros [_ H]. apply (IH (width c)); [|exact H].
      cbn in Hit. lia.
Qed.

(** *** The prefix that fits *)

Lemma fitting_none (budget : Z) (items : list item) :
  Forall wf items -> budget < 1 -> fitting budget items = [].
Proof.
  intros Hwf Hb. destruct Hwf as [|it items Hit _]; [reflexivity|].
  cbn [fitting]. pose proof (well_formed_columns _ Hit).
  replace (item_columns it <=? budget) with false
    by (symmetry; apply Z.leb_gt; lia).
  reflexivity.
Qed.

Lemma fitting_app (budget : Z) (first rest : list item) :
  Forall wf first ->
  stream_columns first <= budget ->
  fitting budget (first ++ rest)
  = first ++ fitting (budget - stream_columns first) rest.
Proof.
  intros Hwf. revert budget.
  induction Hwf as [|it first Hit Hwf IH]; intros budget Hb;
    cbn [app stream_columns fitting] in *.
  - now rewrite Z.sub_0_r.
  - pose proof (well_formed_columns _ Hit).
    pose proof (stream_columns_nonneg _ Hwf).
    replace (item_columns it <=? budget) with true
      by (symmetry; apply Z.leb_le; lia).
    rewrite IH by lia. do 3 f_equal. lia.
Qed.

Lemma fitting_columns (budget : Z) (items : list item) :
  Forall wf items -> 0 <= budget ->
  0 <= stream_columns (fitting budget items) <= budget.
Proof.
  intros Hwf. revert budget.
  induction Hwf as [|it items Hit _ IH]; intros budget Hb;
    cbn [fitting stream_columns]; [lia|].
  pose proof (well_formed_columns _ Hit).
  destruct (item_columns it <=? budget) eqn:Hle; cbn [stream_columns];
    [|lia].
  apply Z.leb_le in Hle.
  pose proof (IH (budget - item_columns it)) as IH'. lia.
Qed.

(** The share of the fast path: the plain bytes taken are a prefix of the
    stream and of what fits, and what follows them is not a plain byte unless
    the budget is used up. *)
Lemma fitting_plain_split (budget : Z) (items : list item) :
  0 <= budget ->
  let taken := fitting_plain budget items in
  exists rest,
    items = taken ++ rest
    /\ fitting budget items
       = taken ++ fitting (budget - stream_columns taken) rest
    /\ Z.of_nat (length (stream_bytes taken)) = stream_columns taken
    /\ 0 <= stream_columns taken <= budget
    /\ match rest with
       | Plain _ :: _ => stream_columns taken = budget
       | _ => True
       end.
Proof.
  revert budget.
  induction items as [|[ch|bytes c] items IH]; intros budget Hb;
    cbn [fitting_plain].
  - exists []. cbn. repeat split; try reflexivity; try exact I; lia.
  - destruct (1 <=? budget) eqn:Hle.
    + apply Z.leb_le in Hle.
      destruct (IH (budget - 1)) as (rest & H1 & H2 & H3 & H4 & H5); [lia|].
      exists rest. cbn [app stream_columns item_columns fitting].
      replace (1 <=? budget) with true by (symmetry; apply Z.leb_le; lia).
      repeat split.
      * f_equal. exact H1.
      * f_equal. rewrite H2. do 2 f_equal. lia.
      * cbn [stream_bytes flat_map item_bytes app length] in *.
        fold (stream_bytes (fitting_plain (budget - 1) items)).
        lia.
      * lia.
      * lia.
      * destruct rest as [|[ch'|bytes' c'] rest]; [exact I | lia | exact I].
    + apply Z.leb_gt in Hle. exists (Plain ch :: items).
      cbn [app stream_columns stream_bytes flat_map length].
      rewrite Z.sub_0_r. repeat split; try reflexivity; try exact I; lia.
  - exists (Codepoint bytes c :: items).
    cbn [app stream_columns stream_bytes flat_map length].
    rewrite Z.sub_0_r. repeat split; try reflexivity; try exact I; lia.
Qed.

(** The share of the complex-span scanner: the codepoints taken are a prefix
    of the stream and of what fits, and a codepoint that follows them does
    not fit the budget left. *)
Lemma fitting_codepoints_split (budget : Z) (items : list item) :
  Forall wf items -> 0 <= budget ->
  let taken := fitting_codepoints budget items in
  exists rest,
    items = taken ++ rest
    /\ fitting budget items
       = taken ++ fitting (budget - stream_columns taken) rest
    /\ 0 <= stream_columns taken <= budget
    /\ match rest with
       | Codepoint _ c :: _ => budget - stream_columns taken < width c
       | _ => True
       end.
Proof.
  intros Hwf. revert budget.
  induction Hwf as [|[ch|bytes c] items Hit _ IH]; intros budget Hb;
    cbn [fitting_codepoints].
  - exists []. cbn. repeat split; try reflexivity; try exact I; lia.
  - exists (Plain ch :: items). cbn [app stream_columns].
    rewrite Z.sub_0_r. repeat split; try reflexivity; try exact I; lia.
  - pose proof (well_formed_columns _ Hit) as Hw. cbn [item_columns] in Hw.
    destruct (width c <=? budget) eqn:Hle.
    + apply Z.leb_le in Hle.
      destruct (IH (budget - width c)) as (rest & H1 & H2 & H3 & H4); [lia|].
      exists rest. cbn [app stream_columns item_columns fitting].
      replace (width c <=? budget) with true
        by (symmetry; apply Z.leb_le; lia).
      repeat split.
      * f_equal. exact H1.
      * f_equal. rewrite H2. do 2 f_equal. lia.
      * lia.
      * lia.
      * destruct rest as [|[ch'|bytes' c'] rest]; [exact I | exact I | lia].
    + apply Z.leb_gt in Hle. exists (Codepoint bytes c :: items).
      cbn [app stream_columns]. rewrite Z.sub_0_r. repeat split; try reflexivity; try exact I; lia.
Qed.

(** *** The leaf scanners on a stream *)

Lemma stops_scan_not_complex (tail : list byte) :
  stops_scan tail ->
  match tail with
  | [] => True
  | ch :: _ => is_complex ch = false
  end.
Proof.
  destruct tail as [|ch tail]; [trivial|]. apply is_control_not_complex.
Qed.

Lemma scan_for_text_ascii_stream (budget : Z) (items : list item)
  (tail : list byte) :
  Forall wf items -> stops_scan tail -> 0 <= budget ->
  scan_for_text_ascii (stream_bytes items ++ tail) budget
  = stream_columns (fitting_plain budget items).
Proof.
  intros Hwf Htail Hb. rewrite scan_for_text_ascii_eq by exact Hb.
  unfold leading_plain_capped. revert budget Hb.
  induction Hwf as [|[ch|bytes c] items Hit _ IH]; intros budget Hb.
  - cbn [stream_bytes flat_map app fitting_plain stream_columns].
    replace (plain_run tail) with 0%nat; [lia|].
    destruct tail as [|ch tail']; [reflexivity|].
    cbn [plain_run stops_scan] in *.
    unfold is_ascii. rewrite Htail. reflexivity.
  - cbn [stream_bytes flat_map item_bytes app plain_run length fitting_plain].
    fold (stream_bytes items). cbn in Hit. rewrite Hit.
    destruct (1 <=? budget) eqn:Hle.
    + apply Z.leb_le in Hle. cbn [stream_columns item_columns].
      rewrite <- (IH (budget - 1)) by lia. lia.
    + apply Z.leb_gt in Hle. cbn [stream_columns]. lia.
  - destruct (well_formed_bytes _ Hit) as (ch & rest & Hb' & Hcx).
    cbn [item_bytes] in Hb'. subst bytes.
    cbn [stream_bytes flat_map item_bytes app plain_run fitting_plain
           stream_columns].
    rewrite (is_complex_not_ascii _ Hcx). cbn [Z.of_nat]. lia.
Qed.

(** The loop of the complex-span scanner, entered between two codepoints of
    a stream with nothing of a sequence pending: it takes the codepoints that
    fit, one cluster each, and stops in front of the first one that does not,
    or of a byte with its high bit clear. *)
Lemma nonascii_loop_stream (maxColumnCount : Z) (items : list item)
  (tail : list byte) (v : loop_vars) :
  Forall wf items ->
  stops_scan tail ->
  widths_ascend (v_currentClusterWidth v) items ->
  incl (stream_codepoints items) prevs ->
  expectedLength (utf8 (v_state v)) = 0%N ->
  In (lastCodepointHint (v_state v)) prevs ->
  v_byteCount v = 0 ->
  v_resultEnd v = v_input v ->
  0 <= v_count v -> 0 <= v_currentClusterWidth v ->
  v_count v + v_currentClusterWidth v <= maxColumnCount ->
  v_count v + v_currentClusterWidth v + stream_columns items
  <= size_t_max ->
  let taken :=
    fitting_codepoints
      (maxColumnCount - v_count v - v_currentClusterWidth v) items in
  let v' := nonascii_loop maxColumnCount (stream_bytes items ++ tail) v in
  v_count v' + v_currentClusterWidth v'
  = v_count v + v_currentClusterWidth v + stream_columns taken
  /\ v_input v' = v_input v + Z.of_nat (length (stream_bytes taken))
  /\ v_resultEnd v' = v_input v'
  /\ expectedLength (utf8 (v_state v')) = 0%N
  /\ In (lastCodepointHint (v_state v')) prevs.
Proof.
  intros Hwf Htail. revert v.
  induction Hwf as [|[ch|bytes c] items Hit Hwf IH];
    intros v Hasc Hincl Hu Hh Hbc Hre Hc Hcw Hsum HM.
  - cbn [stream_bytes flat_map app fitting_codepoints].
    rewrite nonascii_loop_not_complex
      by (apply stops_scan_not_complex; exact Htail).
    cbn. repeat split; try assumption; lia.
  - cbn [stream_bytes flat_map item_bytes app fitting_codepoints].
    rewrite nonascii_loop_not_complex
      by (apply is_ascii_not_complex; exact Hit).
    cbn. repeat split; try assumption; lia.
  - destruct Hit as (Hcx & Hlen & Hdec & Hw & Hopen).
    pose proof (stream_columns_nonneg _ Hwf) as Hpos.
    cbn [stream_columns item_columns] in HM.
    cbn [stream_bytes flat_map item_bytes]. fold (stream_bytes items).
    rewrite <- app_assoc.
    destruct (Hdec _ Hu) as (u' & Hdec' & Hu').
    rewrite (nonascii_loop_decodes _ _ _ _ c u');
      [ | exact Hdec' | exact Hcx | lia ].
    assert (Hbrk : breakable (lastCodepointHint (v_state v)) c = true).
    { unfold opens_cluster in Hopen.
      rewrite forallb_forall in Hopen. apply Hopen, Hh. }
    cbn [widths_ascend] in Hasc. destruct Hasc as [Hasc1 Hasc2].
    cbn [stream_codepoints] in Hincl.
    unfold on_success. rewrite Hbrk, Hbc.
    rewrite (to_size_t_small (width c)) by (unfold size_t_max; lia).
    rewrite (to_size_t_small (v_count v + v_currentClusterWidth v))
      by lia.
    replace (Z.max (v_currentClusterWidth v) (width c)) with (width c) by lia.
    rewrite (to_size_t_small (v_count v + v_currentClusterWidth v + width c))
      by lia.
    rewrite to_unsigned_small by lia.
    cbn [fitting_codepoints].
    destruct (width c
              <=? maxColumnCount - v_count v - v_currentClusterWidth v)
      eqn:Hfit.
    + apply Z.leb_le in Hfit.
      replace (v_count v + v_currentClusterWidth v + width c
               >? maxColumnCount) with false
        by (symmetry; rewrite Z.gtb_ltb; apply Z.ltb_ge; lia).
      match goal with
      | |- context [nonascii_loop _ _ ?w] =>
          pose proof (IH w) as IH'
      end.
      cbn [v_state v_count v_input v_byteCount v_currentClusterWidth
             v_resultEnd utf8 lastCodepointHint] in IH'.
      destruct IH' as (H1 & H2 & H3 & H4 & H5);
        try assumption; try reflexivity; try lia.
      * intros x Hx. apply Hincl. right. exact Hx.
      * apply Hincl. left. reflexivity.
      * cbv zeta.
        replace (maxColumnCount - (v_count v + v_currentClusterWidth v)
                 - width c)
          with (maxColumnCount - v_count v - v_currentClusterWidth v
                - width c) in * by lia.
        rewrite H1, H2.
        cbn [stream_columns item_columns stream_bytes flat_map item_bytes].
        fold (stream_bytes
                (fitting_codepoints
                   (maxColumnCount - v_count v - v_currentClusterWidth v
                    - width c) items)).
        rewrite length_app.
        repeat split; try assumption; lia.
    + apply Z.leb_gt in Hfit.
      replace (v_count v + v_currentClusterWidth v + width c
               >? maxColumnCount) with true
        by (symmetry; rewrite Z.gtb_ltb; apply Z.ltb_lt; lia).
      cbn. repeat split; try lia.
      apply Hincl. left. reflexivity.
Qed.

Lemma scan_for_text_nonascii_stream (state : scan_state) (text_data : Z)
  (items : list item) (tail : list byte) (maxColumnCount : Z) :
  Forall wf items ->
  stops_scan tail ->
  widths_ascend 0 items ->
  incl (stream_codepoints items) prevs ->
  expectedLength (utf8 state) = 0%N ->
  In (lastCodepointHint state) prevs ->
  0 <= maxColumnCount ->
  stream_columns items <= size_t_max ->
  let taken := fitting_codepoints maxColumnCount items in
  let past := text_data + Z.of_nat (length (stream_bytes taken)) in
  exists state',
    expectedLength (utf8 state') = 0%N
    /\ In (lastCodepointHint state') prevs
    /\ scan_for_text_nonascii state text_data
         (stream_bytes items ++ tail) maxColumnCount
       = (state',
          mk_scan_result (stream_columns taken) past text_data past).
Proof.
  intros Hwf Htail Hasc Hincl Hexp Hh HM Hcap taken past.
  unfold scan_for_text_nonascii.
  rewrite Hexp. cbn [N.eqb negb].
  match goal with
  | |- context [nonascii_loop _ _ ?w] =>
      pose proof (nonascii_loop_stream maxColumnCount items tail w Hwf Htail)
        as H;
      set (v' := nonascii_loop maxColumnCount (stream_bytes items ++ tail) w)
        in *
  end.
  cbn [v_state v_count v_input v_byteCount v_currentClusterWidth
         v_resultEnd utf8 lastCodepointHint] in H.
  rewrite !Z.sub_0_r in H. fold taken in H.
  destruct H as (H1 & H2 & H3 & H4 & H5);
    try assumption; try reflexivity; try lia.
  destruct (fitting_codepoints_split maxColumnCount items Hwf HM)
    as (rest & Hitems & _ & Hcols & _).
  fold taken in Hitems, Hcols.
  assert (Hrest : 0 <= stream_columns rest).
  { apply stream_columns_nonneg.
    rewrite Hitems in Hwf. apply Forall_app in Hwf. apply Hwf. }
  rewrite Hitems, stream_columns_app in Hcap.
  exists (v_state v'). split; [exact H4|]. split; [exact H5|].
  rewrite H1, H3, H2, !Z.add_0_l.
  rewrite to_size_t_small by lia.
  reflexivity.
Qed.

(** *** The driver on a stream *)

(** The loop of the driver, entered with the working view on a stream of
    clusters and in step with the result: it returns with the columns and the
    bytes of the clusters that fit the budget left. *)
Lemma scan_loop_stream (mem : list byte) (maxColumnCount : Z)
  (tail : list byte) (fuel : nat) :
  forall (nextState : NextState) (state : scan_state) (result : scan_result)
         (text : string_view) (items : list item),
  bytes_of mem text = Some (stream_bytes items ++ tail) ->
  size text <= size_t_max ->
  Forall wf items ->
  stops_scan tail ->
  widths_ascend 0 items ->
  incl (stream_codepoints items) prevs ->
  expectedLength (utf8 state) = 0%N ->
  In (lastCodepointHint state) prevs ->
  next result = data text ->
  end_ result = data text ->
  0 <= count result <= maxColumnCount ->
  maxColumnCount <= size_t_max ->
  count result + stream_columns items <= size_t_max ->
  (count result < maxColumnCount ->
   round_suits nextState (maxColumnCount - count result) items) ->
  (2 * Z.to_nat (size text)
   + match nextState with Trivial => 1 | Complex => 2 end <= fuel)%nat ->
  let taken := fitting (maxColumnCount - count result) items in
  let past := data text + Z.of_nat (length (stream_bytes taken)) in
  exists state',
    expectedLength (utf8 state') = 0%N
    /\ In (lastCodepointHint state') prevs
    /\ scan_loop fuel mem maxColumnCount nextState state result text
       = Returns (state',
                  mk_scan_result (count result + stream_columns taken) past
                    (start result) past).
Proof.
  induction fuel as [|fuel IH];
    intros nextState state result text items Hb Hsz Hwf Htail Hasc Hincl
           Hexp Hh Hn He Hc HM Hcap Hsuits Hfuel taken past.
  { destruct nextState; lia. }
  destruct (bytes_of_Some _ _ _ Hb) as (Hd & Hs & Hend & _).
  cbn [scan_loop]. unfold view_end. rewrite Hn.
  destruct (count result <? maxColumnCount) eqn:Hlt.
  2:{ (* the budget is used up *)
      apply Z.ltb_ge in Hlt. cbn [andb].
      subst taken past. rewrite fitting_none by (assumption || lia).
      exists state. split; [exact Hexp|]. split; [exact Hh|].
      destruct result as [c0 n0 s0 e0]. cbn [count next start end_] in *.
      subst n0 e0. cbn [stream_bytes flat_map length stream_columns Z.of_nat].
      rewrite !Z.add_0_r. reflexivity. }
  apply Z.ltb_lt in Hlt. specialize (Hsuits Hlt). cbn [andb].
  destruct (data text =? data text + size text) eqn:Hempty.
  { (* the end of the span *)
    apply Z.eqb_eq in Hempty. cbn [negb].
    assert (Hnil : items = []).
    { apply stream_bytes_nil; [exact Hwf|].
      destruct (stream_bytes items); [reflexivity|].
      cbn [app length] in Hs. lia. }
    subst taken past. rewrite Hnil.
    exists state. split; [exact Hexp|]. split; [exact Hh|].
    destruct result as [c0 n0 s0 e0]. cbn [count next start end_] in *.
    subst n0 e0. cbn [fitting stream_bytes flat_map length stream_columns
                        Z.of_nat].
    rewrite !Z.add_0_r. reflexivity. }
  apply Z.eqb_neq in Hempty. cbn [negb]. rewrite Hb.
  rewrite to_size_t_small by lia.
  set (budget := maxColumnCount - count result) in *.
  destruct nextState.
  - (* Trivial *)
    rewrite scan_for_text_ascii_stream by (assumption || lia).
    destruct (fitting_plain_split budget items ltac:(lia))
      as (rest & Hitems & Hfit & Hlen & Hcols & Hrest).
    set (plain := fitting_plain budget items) in *.
    set (n := stream_columns plain) in *.
    destruct (n =? 0) eqn:Hn0.
    + (* the fast path takes nothing: a codepoint that does not fit, or the
         control byte after the stream *)
      apply Z.eqb_eq in Hn0.
      assert (Hnone : taken = []).
      { subst taken. destruct items as [|[ch|bytes c] items'].
        - reflexivity.
        - exfalso. subst n plain. cbn [fitting_plain] in Hn0.
          replace (1 <=? budget) with true in Hn0
            by (symmetry; apply Z.leb_le; lia).
          cbn [stream_columns item_columns] in Hn0.
          pose proof (fitting_plain_split (budget - 1) items' ltac:(lia))
            as (? & _ & _ & _ & ? & _).
          lia.
        - cbn [round_suits] in Hsuits.
          destruct Hsuits as [Hs'|Hs']; [discriminate|].
          cbn [fitting item_columns].
          replace (width c <=? budget) with false
            by (symmetry; apply Z.leb_gt; lia).
          reflexivity. }
      subst past. rewrite Hnone.
      exists state. split; [exact Hexp|]. split; [exact Hh|].
      destruct result as [c0 n0 s0 e0]. cbn [count next start end_] in *.
      subst n0 e0. cbn [stream_bytes flat_map length stream_columns Z.of_nat].
      rewrite !Z.add_0_r. reflexivity.
    + apply Z.eqb_neq in Hn0.
      assert (Hwf2 : Forall wf plain /\ Forall wf rest).
      { apply Forall_app. rewrite <- Hitems. exact Hwf. }
      destruct Hwf2 as [Hwfp Hwfr].
      assert (Hsize : size text
                      = n + Z.of_nat (length (stream_bytes rest ++ tail))).
      { rewrite Hs, Hitems, stream_bytes_app, !length_app. lia. }
      assert (Hcap' : stream_columns items = n + stream_columns rest).
      { rewrite Hitems at 1. apply stream_columns_app. }
      unfold remove_prefix.
      replace (n <=? size text) with true
        by (symmetry; apply Z.leb_le; lia).
      pose proof (bytes_of_suffix mem text _ n Hb ltac:(lia)) as Hsuf.
      rewrite Hitems, stream_bytes_app, <- app_assoc in Hsuf.
      rewrite <- Hlen, Nat2Z.id, skipn_app, skipn_all, Nat.sub_diag in Hsuf.
      cbn [app skipn] in Hsuf. rewrite Hlen in Hsuf.
      rewrite (to_size_t_small (count result + n)) by lia.
      destruct (IH Complex state
                  (mk_scan_result (count result + n) (data text + n)
                     (start result) (end_ result + n))
                  (mk_string_view (data text + n) (size text - n)) rest)
        as (state' & Hexp' & Hh' & Hloop); try assumption.
      * cbn [size]. lia.
      * apply (widths_ascend_suffix 0 plain); [exact Hwfp | lia |].
        rewrite <- Hitems. exact Hasc.
      * intros x Hx. apply Hincl.
        rewrite Hitems, stream_codepoints_app. apply in_or_app. now right.
      * reflexivity.
      * cbn [end_ data]. lia.
      * cbn [count]. lia.
      * cbn [count]. lia.
      * cbn [count]. intros Hlt'.
        destruct rest as [|[ch|bytes c] rest']; cbn [round_suits];
          [exact I | lia | now left].
      * cbn [size]. lia.
      * exists state'. split; [exact Hexp'|]. split; [exact Hh'|].
        rewrite Hloop. cbn [count start data].
        subst taken past. rewrite Hfit.
        replace (maxColumnCount - (count result + n)) with (budget - n)
          by (subst budget; lia).
        rewrite stream_columns_app, stream_bytes_app, length_app.
        fold n. do 2 f_equal. f_equal; lia.
  - (* Complex *)
    destruct (scan_for_text_nonascii_stream state (data text) items tail
                budget)
      as (state1 & Hexp1 & Hh1 & Hsub); try assumption; try lia.
    rewrite Hsub.
    destruct (fitting_codepoints_split budget items Hwf ltac:(lia))
      as (rest & Hitems & Hfit & Hcols & Hrest).
    set (cps := fitting_codepoints budget items) in *.
    set (n := Z.of_nat (length (stream_bytes cps))) in *.
    assert (Hwf2 : Forall wf cps /\ Forall wf rest).
    { apply Forall_app. rewrite <- Hitems. exact Hwf. }
    destruct Hwf2 as [Hwfp Hwfr].
    assert (Hsize : size text
                    = n + Z.of_nat (length (stream_bytes rest ++ tail))).
    { rewrite Hs, Hitems, stream_bytes_app, !length_app. lia. }
    assert (Hcap' : stream_columns items
                    = stream_columns cps + stream_columns rest).
    { rewrite Hitems at 1. apply stream_columns_app. }
    cbn [start end_ count next].
    replace (data text + n - data text) with n by lia.
    rewrite (to_size_t_small n) by lia.
    unfold remove_prefix.
    replace (n <=? size text) with true by (symmetry; apply Z.leb_le; lia).
    pose proof (bytes_of_suffix mem text _ n Hb ltac:(lia)) as Hsuf.
    rewrite Hitems, stream_bytes_app, <- app_assoc in Hsuf.
    unfold n in Hsuf at 3.
    rewrite Nat2Z.id, skipn_app, skipn_all, Nat.sub_diag in Hsuf.
    cbn [app skipn] in Hsuf.
    rewrite (to_size_t_small (count result + stream_columns cps)) by lia.
    destruct (IH Trivial state1
                (mk_scan_result (count result + stream_columns cps)
                   (data text + n) (start result) (data text + n))
                (mk_string_view (data text + n) (size text - n)) rest)
      as (state' & Hexp' & Hh' & Hloop); try assumption.
    * cbn [size]. lia.
    * apply (widths_ascend_suffix 0 cps); [exact Hwfp | lia |].
      rewrite <- Hitems. exact Hasc.
    * intros x Hx. apply Hincl.
      rewrite Hitems, stream_codepoints_app. apply in_or_app. now right.
    * reflexivity.
    * reflexivity.
    * cbn [count]. lia.
    * cbn [count]. lia.
    * cbn [count]. intros Hlt'.
      destruct rest as [|[ch|bytes c] rest']; cbn [round_suits];
        [exact I | reflexivity | right; lia].
    * cbn [size]. lia.
    * exists state'. split; [exact Hexp'|]. split; [exact Hh'|].
      rewrite Hloop. cbn [count start data].
      subst taken past. rewrite Hfit.
      replace (maxColumnCount - (count result + stream_columns cps))
        with (budget - stream_columns cps) by (subst budget; lia).
      rewrite stream_columns_app, stream_bytes_app, length_app.
      fold n. do 2 f_equal. f_equal; lia.
Qed.

(** One call of the driver on a non-empty span that holds a stream, no
    sequence pending: it takes the clusters that fit the budget. *)
Lemma scan_for_text_stream (mem : list byte) (text : string_view)
  (state : scan_state) (items : list item) (tail : list byte)
  (maxColumnCount : Z) :
  bytes_of mem text = Some (stream_bytes items ++ tail) ->
  size text <= size_t_max ->
  items <> [] \/ tail <> [] ->
  Forall wf items ->
  stops_scan tail ->
  widths_ascend 0 items ->
  incl (stream_codepoints items) prevs ->
  expectedLength (utf8 state) = 0%N ->
  In (lastCodepointHint state) prevs ->
  0 <= maxColumnCount <= size_t_max ->
  stream_columns items <= size_t_max ->
  let taken := fitting maxColumnCount items in
  let past := data text + Z.of_nat (length (stream_bytes taken)) in
  exists state',
    expectedLength (utf8 state') = 0%N
    /\ In (lastCodepointHint state') prevs
    /\ scan_for_text mem state text maxColumnCount
       = Returns (state',
                  mk_scan_result (stream_columns taken) past (data text)
                    past).
Proof.
  intros Hb Hsz Hne Hwf Htail Hasc Hincl Hexp Hh HM Hcap taken past.
  unfold scan_for_text.
  rewrite Hexp. cbn [N.eqb negb].
  assert (Hfront : exists ch,
             front mem text = Some ch
             /\ round_suits (if is_complex ch then Complex else Trivial)
                  maxColumnCount items).
  { destruct items as [|it items'].
    - destruct tail as [|ch tail']; [destruct Hne; contradiction|].
      exists ch. split; [|exact I].
      apply (front_of_bytes mem text ch tail'). exact Hb.
    - pose proof (Forall_inv Hwf) as Hit.
      destruct (well_formed_bytes _ Hit) as (ch & rest & Hbytes & Hcx).
      exists ch. split.
      + apply (front_of_bytes mem text ch
                 ((rest ++ stream_bytes items') ++ tail)).
        rewrite Hb. cbn [stream_bytes flat_map]. rewrite Hbytes.
        reflexivity.
      + rewrite Hcx.
        destruct it; cbn [round_suits]; [reflexivity | now left]. }
  destruct Hfront as (ch & Hfront & Hsuits).
  rewrite Hfront.
  destruct (scan_loop_stream mem maxColumnCount tail (loop_fuel text)
              (if is_complex ch then Complex else Trivial) state
              (mk_scan_result 0 (data text) (data text) (data text))
              text items)
    as (state' & Hexp' & Hh' & Hloop); try assumption; try reflexivity.
  - cbn [count]. lia.
  - lia.
  - cbn [count]. rewrite Z.sub_0_r. intros _. exact Hsuits.
  - unfold loop_fuel. destruct (is_complex ch); lia.
  - exists state'. split; [exact Hexp'|]. split; [exact Hh'|].
    rewrite Hloop. cbn [count start].
    subst taken past. rewrite Z.sub_0_r, Z.add_0_l. reflexivity.
Qed.

End Streams.


(** ** A wide first codepoint that does not fit *)

(** A span that starts with a codepoint of width 2 at a cluster boundary,
    budget 1: the complex-span scanner rewinds to the start of the codepoint
    and the driver returns with nothing consumed. *)
Lemma scan_for_text_wide_first_codepoint
  (mem : list byte) (text : string_view) (state : scan_state)
  (wide rest : list byte) (c : char32_t) (u1 : utf8_decoder_state) :
  bytes_of mem text = Some (wide ++ rest) ->
  expectedLength (utf8 state) = 0%N ->
  decodes (utf8 state) wide = Some (c, u1) ->
  Forall (fun ch => is_complex ch = true) wide ->
  Z.of_nat (length wide) < 2 ^ 32 ->
  width c = 2 ->
  breakable (lastCodepointHint state) c = true ->
  let d := data text in
  scan_for_text_nonascii state d (wide ++ rest) 1
  = (mk_scan_state u1 c, mk_scan_result 0 d d d)
  /\ scan_for_text mem state text 1
     = Returns (mk_scan_state u1 c, mk_scan_result 0 d d d).
Proof.
  intros Hb Hexp Hdec Hcx Hlen Hw Hbrk d.
  destruct (bytes_of_Some _ _ _ Hb) as (Hd & Hs & He & _).
  assert (Hsub : scan_for_text_nonascii state d (wide ++ rest) 1
                 = (mk_scan_state u1 c, mk_scan_result 0 d d d)).
  { unfold scan_for_text_nonascii. rewrite Hexp. cbn [N.eqb negb].
    set (v0 := mk_loop_vars state 0 d d d 0 0 d).
    assert (Hloop : nonascii_loop 1 (wide ++ rest) v0
                    = mk_loop_vars (mk_scan_state u1 c) 0 d d d
                        (Z.of_nat (length wide)) 0 d).
    { rewrite (nonascii_loop_decodes _ _ _ _ c u1);
        [ | exact Hdec | exact Hcx | cbn [v0 v_count]; lia ].
      unfold on_success.
      cbn [v0 v_state v_currentClusterWidth v_count v_input v_byteCount
             v_lastCodepointStart v_clusterStart v_resultEnd].
      rewrite Hbrk, Hw. eval_size_t. cbn [Z.max Z.compare Z.add].
      change (to_size_t 2) with 2. change (2 >? 1) with true. cbn iota.
      rewrite to_unsigned_small by lia. f_equal. lia. }
    rewrite Hloop. reflexivity. }
  split; [exact Hsub|].
  destruct wide as [|ch0 wide']; [discriminate|].
  assert (Hch0 : is_complex ch0 = true) by (inversion Hcx; assumption).
  cbn [app] in Hb, Hs, Hsub.
  cbn [length] in Hs.
  unfold scan_for_text. rewrite Hexp. cbn [N.eqb negb].
  rewrite (front_of_bytes _ _ _ _ Hb), Hch0.
  replace (loop_fuel text) with (S (S (2 * Z.to_nat (size text))))
    by (unfold loop_fuel; lia).
  cbn [scan_loop count next]. unfold view_end.
  replace (data text =? data text + size text) with false
    by (symmetry; apply Z.eqb_neq; lia).
  cbn [Z.ltb Z.compare andb negb]. rewrite Hb.
  change (to_size_t (1 - 0)) with 1. fold d. rewrite Hsub.
  cbn [start end_ count next]. rewrite Z.sub_diag.
  change (to_size_t 0) with 0. change (to_size_t (0 + 0)) with 0.
  unfold remove_prefix.
  replace (0 <=? size text) with true by (symmetry; apply Z.leb_le; lia).
  rewrite Z.add_0_r, Z.sub_0_r. cbn [data size].
  replace (d =? data text + size text) with false
    by (symmetry; apply Z.eqb_neq; subst d; lia).
  cbn [Z.ltb Z.compare andb negb].
  replace (mk_string_view (data text) (size text)) with text
    by (destruct text; reflexivity).
  rewrite Hb. change (to_size_t (1 - 0)) with 1.
  rewrite scan_for_text_ascii_eq by lia.
  unfold leading_plain_capped. cbn [plain_run].
  rewrite (is_complex_not_ascii _ Hch0). cbn [Z.of_nat].
  replace (Z.min 0 _) with 0 by lia.
  reflexivity.
Qed.

(** C7 (amended).  A budget of exactly 1 and an input that begins with a
    cluster of display width 2 whose first codepoint is encoded outside
    ASCII, scanned with no sequence pending at a cluster boundary.  When the
    cluster is wide by its first codepoint, the scan reports [count = 0],
    [next] at the start of the cluster and nothing consumed, [end = start].
    When it is a narrow base widened by U+FE0F (from a fresh state, nothing
    following), the scan reports [count = 0] and [next] at the start of the
    cluster. *)
Theorem wide_cluster_overflow_rewinds_to_cluster_start
  (mem : list byte) (text : string_view) :
  (forall (state : scan_state) (wide rest : list byte) (c : char32_t)
          (u1 : utf8_decoder_state),
      bytes_of mem text = Some (wide ++ rest) ->
      expectedLength (utf8 state) = 0%N ->
      decodes (utf8 state) wide = Some (c, u1) ->
      Forall (fun ch => is_complex ch = true) wide ->
      Z.of_nat (length wide) < 2 ^ 32 ->
      width c = 2 ->
      breakable (lastCodepointHint state) c = true ->
      scan_for_text_nonascii state (data text) (wide ++ rest) 1
      = (mk_scan_state u1 c,
         mk_scan_result 0 (data text) (data text) (data text))
      /\ scan_for_text mem state text 1
         = Returns (mk_scan_state u1 c,
                    mk_scan_result 0 (data text) (data text) (data text)))
  /\ (forall (base selector : list byte) (b : char32_t)
             (u1 u2 : utf8_decoder_state),
         bytes_of mem text = Some (base ++ selector) ->
         size text <= size_t_max ->
         decodes (utf8 fresh_state) base = Some (b, u1) ->
         decodes u1 selector = Some (VS16, u2) ->
         Forall (fun ch => is_complex ch = true) base ->
         Forall (fun ch => is_complex ch = true) selector ->
         width b = 1 ->
         breakable 0%N b = true ->
         breakable b VS16 = false ->
         exists state r,
           scan_for_text mem fresh_state text 1 = Returns (state, r)
           /\ count r = 0 /\ next r = data text).
Proof.
  split.
  - intros state wide rest c u1 Hb Hexp Hdec Hcx Hlen Hw Hbrk.
    exact (scan_for_text_wide_first_codepoint mem text state wide rest c u1
             Hb Hexp Hdec Hcx Hlen Hw Hbrk).
  - intros base selector b u1 u2 Hb Hsize Hbase Hsel Hcb Hcs Hw Hb0 Hbv.
    destruct (scan_for_text_base_vs16 mem text base selector b u1 u2
                Hb Hsize Hbase Hsel Hcb Hcs Hw Hb0 Hbv) as (_ & _ & H1).
    do 2 eexists. split; [exact H1 | split; reflexivity].
Qed.

(** ** How far the driver's [count] can pass the budget *)

Lemma scan_loop_count_bound (fuel : nat) (mem : list byte)
  (maxColumnCount : Z) (nextState : NextState) (state : scan_state)
  (result : scan_result) (text : string_view)
  (state' : scan_state) (result' : scan_result) :
  0 <= maxColumnCount ->
  0 <= count result <= maxColumnCount + 1 ->
  scan_loop fuel mem maxColumnCount nextState state result text
  = Returns (state', result') ->
  0 <= count result' <= maxColumnCount + 1.
Proof.
  intros HB. revert nextState state result text.
  induction fuel as [|fuel IH]; intros nextState state result text Hc Hret;
    cbn [scan_loop] in Hret.
  - destruct (_ && _); [discriminate|].
    injection Hret as _ <-. exact Hc.
  - destruct (count result <? maxColumnCount) eqn:Hlt; cbn [andb] in Hret.
    2:{ injection Hret as _ <-. exact Hc. }
    apply Z.ltb_lt in Hlt.
    destruct (negb (next result =? view_end text)).
    2:{ injection Hret as _ <-. exact Hc. }
    destruct (bytes_of mem text) as [bytes|]; [|discriminate].
    pose proof (to_size_t_range (maxColumnCount - count result)) as Hr.
    pose proof (to_size_t_le (maxColumnCount - count result)) as Hle.
    destruct nextState.
    + rewrite scan_for_text_ascii_eq in Hret by lia.
      unfold leading_plain_capped in Hret.
      set (n := Z.min _ _) in Hret.
      destruct (n =? 0).
      { injection Hret as _ <-. exact Hc. }
      destruct (remove_prefix text n) as [text'|]; [|discriminate].
      apply IH in Hret; [exact Hret|]. cbn [count].
      pose proof (to_size_t_range (count result + n)).
      pose proof (to_size_t_le (count result + n)).
      subst n. lia.
    + pose proof (scan_for_text_nonascii_count_bound state (data text) bytes
                    (to_size_t (maxColumnCount - count result))) as Hsub.
      destruct (scan_for_text_nonascii state (data text) bytes _)
        as [state1 sub].
      cbn [snd] in Hsub. specialize (Hsub ltac:(lia)).
      destruct (remove_prefix text _) as [text'|]; [|discriminate].
      apply IH in Hret; [exact Hret|]. cbn [count].
      pose proof (to_size_t_range (count result + count sub)).
      pose proof (to_size_t_le (count result + count sub)).
      lia.
Qed.

(** Whenever the driver returns, its [count] is at most one column above the
    budget. *)
Lemma scan_for_text_count_bound (mem : list byte) (state : scan_state)
  (text : string_view) (maxColumnCount : Z)
  (state' : scan_state) (result' : scan_result) :
  0 <= maxColumnCount ->
  scan_for_text mem state text maxColumnCount = Returns (state', result') ->
  0 <= count result' <= maxColumnCount + 1.
Proof.
  intros HB. unfold scan_for_text.
  destruct (negb (expectedLength (utf8 state) =? 0)%N).
  - destruct (bytes_of mem text) as [bytes|]; [|discriminate].
    pose proof (scan_for_text_nonascii_count_bound state (data text) bytes
                  maxColumnCount HB) as Hsub.
    destruct (scan_for_text_nonascii state (data text) bytes maxColumnCount)
      as [state1 result].
    cbn [snd] in Hsub.
    destruct (front mem _) as [ch|]; [|discriminate].
    apply scan_loop_count_bound; assumption.
  - destruct (front mem text) as [ch|]; [|discriminate].
    apply scan_loop_count_bound; [assumption | cbn [count]; lia].
Qed.

(** ** The overflow rewind after a continued cluster *)

(** A narrow base codepoint, a codepoint that continues its cluster (and is
    not U+FE0F), then a codepoint of width 2 at a cluster boundary, scanned
    from a fresh state with budget 1.  [byteCount] is not reset when the
    cluster is continued (line 168 on), so the rewind of line 157 takes
    [input] back over the continuing codepoint as well, to the end of the
    base, while [end] already stands after the continuing codepoint. *)
Lemma scan_for_text_nonascii_rewind_after_continuation (text_data : Z)
  (base mark wide : list byte) (cb cm cw : char32_t)
  (u1 u2 u3 : utf8_decoder_state) :
  decodes (utf8 fresh_state) base = Some (cb, u1) ->
  decodes u1 mark = Some (cm, u2) ->
  decodes u2 wide = Some (cw, u3) ->
  Forall (fun ch => is_complex ch = true) (base ++ mark ++ wide) ->
  Z.of_nat (length (mark ++ wide)) < 2 ^ 32 ->
  width cb = 1 -> width cw = 2 ->
  breakable 0%N cb = true ->
  breakable cb cm = false -> cm <> VS16 ->
  breakable cm cw = true ->
  let r := snd (scan_for_text_nonascii fresh_state text_data
                  (base ++ mark ++ wide) 1) in
  count r = 1
  /\ start r = text_data
  /\ next r = text_data + Z.of_nat (length base)
  /\ end_ r = text_data + Z.of_nat (length base) + Z.of_nat (length mark)
  /\ next r < end_ r.
Proof.
  intros Hbase Hmark Hwide Hcx Hlen Hwb Hww Hb0 Hbm Hvs Hbw.
  apply Forall_app in Hcx as [Hcb Hcx]. apply Forall_app in Hcx as [Hcm Hcw].
  rewrite length_app, Nat2Z.inj_add in Hlen.
  assert (Hm : 1 <= Z.of_nat (length mark)).
  { destruct mark; [discriminate | cbn [length]; lia]. }
  unfold scan_for_text_nonascii.
  cbn [fresh_state utf8 expectedLength N.eqb negb]. fold fresh_state.
  set (v0 := mk_loop_vars fresh_state 0 text_data text_data text_data 0 0
               text_data).
  assert (Hloop : exists cs lcs bc,
             nonascii_loop 1 (base ++ mark ++ wide ++ []) v0
             = mk_loop_vars (mk_scan_state u3 cw) 1
                 (text_data + Z.of_nat (length base))
                 cs lcs bc 0
                 (text_data + Z.of_nat (length base)
                  + Z.of_nat (length mark))).
  { do 3 eexists.
    rewrite (nonascii_loop_decodes _ _ _ _ cb u1);
      [ | exact Hbase | exact Hcb | cbn [v0 v_count]; lia ].
    unfold on_success.
    cbn [v0 v_state lastCodepointHint v_currentClusterWidth v_count v_input
           v_byteCount v_lastCodepointStart v_clusterStart v_resultEnd].
    change (lastCodepointHint fresh_state) with 0%N.
    rewrite Hb0, Hwb. eval_size_t. cbn [Z.max Z.compare Z.add].
    change (1 >? 1) with false. cbn iota.
    rewrite (nonascii_loop_decodes _ _ _ _ cm u2);
      [ | exact Hmark | exact Hcm | cbn [v_count]; lia ].
    unfold on_success.
    cbn [v_state lastCodepointHint v_currentClusterWidth v_count v_input
           v_byteCount v_lastCodepointStart v_clusterStart v_resultEnd].
    rewrite Hbm.
    replace (cm =? VS16)%N with false
      by (symmetry; apply N.eqb_neq; exact Hvs).
    rewrite (nonascii_loop_decodes _ _ _ _ cw u3);
      [ | exact Hwide | exact Hcw | cbn [v_count]; lia ].
    unfold on_success.
    cbn [v_state lastCodepointHint v_currentClusterWidth v_count v_input
           v_byteCount v_lastCodepointStart v_clusterStart v_resultEnd].
    rewrite Hbw, Hww. eval_size_t. cbn [Z.max Z.compare Z.add].
    change (to_size_t 3) with 3. change (3 >? 1) with true. cbn iota.
    f_equal.
    unfold to_unsigned. cbn [Z.add].
    rewrite Z.add_mod_idemp_l by lia.
    rewrite Z.mod_small by lia. lia. }
  rewrite app_nil_r in Hloop. destruct Hloop as (cs & lcs & bc & ->).
  cbn [snd count start next end_ v_count v_currentClusterWidth v_input
         v_resultEnd].
  change (to_size_t (1 + 0)) with 1.
  repeat split; lia.
Qed.

End ScannerProperties.

(** * Further properties of the three functions *)

Section FurtherProperties.

Context {C : Collaborators}.

(** ** Byte classes and the ASCII fast path *)

(** X1.  The three byte predicates split the byte values into three ranges:
    [is_control] holds below 0x20, [is_complex] from 0x80 on, and [is_ascii]
    exactly from 0x20 to 0x7F, so DEL (0x7F) counts as plain text. *)
Theorem byte_classification (ch : byte) :
  (is_control ch = true <-> uint8 ch < 0x20)
  /\ (is_complex ch = true <-> 0x80 <= uint8 ch)
  /\ (is_ascii ch = true <-> 0x20 <= uint8 ch <= 0x7F).
Proof.
  destruct ch; vm_compute; intuition congruence.
Qed.

Lemma check_of_cons_add (ch : byte) (bytes : list byte) :
  check_of (ch :: bytes)
  = Z.b2z (negb (is_ascii ch)) + 2 * check_of bytes.
Proof.
  rewrite check_of_cons. pose proof (check_of_nonneg bytes) as Hnn.
  destruct (check_of bytes) as [|p|p]; [ | | lia].
  - destruct (negb (is_ascii ch)); reflexivity.
  - destruct (negb (is_ascii ch)); cbn [Z.b2z Z.shiftl Pos.iter Z.mul Pos.mul].
    + change (Z.pos p * 2) with (Z.pos (p * 2)).
      replace (p * 2)%positive with (p~0)%positive by lia. reflexivity.
    + change (Z.pos p * 2) with (Z.pos (p * 2)).
      replace (p * 2)%positive with (p~0)%positive by lia. reflexivity.
Qed.

Lemma check_of_bound (bytes : list byte) :
  0 <= check_of bytes < 2 ^ Z.of_nat (length bytes).
Proof.
  induction bytes as [|ch bytes IH].
  - cbn. lia.
  - rewrite check_of_cons_add. cbn [length]. rewrite Nat2Z.inj_succ.
    rewrite Z.pow_succ_r by lia.
    destruct (negb (is_ascii ch)); cbn [Z.b2z]; lia.
Qed.

Lemma plain_run_full (bytes : list byte) :
  plain_run bytes = length bytes ->
  Forall (fun ch => is_ascii ch = true) bytes.
Proof.
  intros H. pose proof (plain_run_prefix_plain bytes) as Hp.
  rewrite H, firstn_all in Hp. exact Hp.
Qed.

(** X2.  The vector test of one 16-byte batch (lines 87-95): the mask [check]
    fits in 16 bits; it is zero exactly when every byte of the batch is
    plain; and when it is not zero, its trailing-zero count [advance] is the
    index of the first byte that is not plain, all bytes before it being
    plain. *)
Theorem sse2_mask_locates_first_non_plain_byte (bytes : list byte) :
  length bytes = 16%nat ->
  let check := check_of bytes in
  0 <= check < 2 ^ 16
  /\ (check = 0 <-> Forall (fun ch => is_ascii ch = true) bytes)
  /\ (check <> 0 ->
      let advance := countTrailingZeroBits check in
      0 <= advance < 16
      /\ Forall (fun ch => is_ascii ch = true)
           (firstn (Z.to_nat advance) bytes)
      /\ exists ch,
           nth_error bytes (Z.to_nat advance) = Some ch
           /\ is_ascii ch = false).
Proof.
  intros Hlen check. subst check.
  pose proof (check_of_bound bytes) as Hb. rewrite Hlen in Hb.
  split; [exact Hb|].
  destruct (check_of_plain_run bytes) as [[Hz Hrun] | (Hnz & Hctz & Hlt)].
  - split; [|contradiction].
    split; [intros _; apply plain_run_full, Hrun | intros _; exact Hz].
  - split.
    + split; [contradiction|].
      intros Hall. apply plain_run_Forall in Hall. lia.
    + intros _. cbn zeta. rewrite Hctz, Nat2Z.id.
      split; [lia|]. split.
      * apply plain_run_prefix_plain.
      * apply plain_run_stops. exact Hlt.
Qed.

(** X3.  The fast path composes over a budget split: scanning with budget
    [B1 + B2] consumes what scanning with [B1] consumes plus what scanning the
    rest of the span with [B2] consumes. *)
Theorem scan_for_text_ascii_resume (text : list byte) (budget1 budget2 : Z) :
  0 <= budget1 -> 0 <= budget2 ->
  let n := scan_for_text_ascii text budget1 in
  scan_for_text_ascii text (budget1 + budget2)
  = n + scan_for_text_ascii (skipn (Z.to_nat n) text) budget2.
Proof.
  intros H1 H2 n. subst n.
  rewrite !scan_for_text_ascii_eq by lia.
  unfold leading_plain_capped.
  pose proof (plain_run_le_length text) as Hle.
  set (n := Z.min (Z.of_nat (plain_run text))
              (Z.min (Z.of_nat (length text)) budget1)).
  assert (Hn : (Z.to_nat n <= plain_run text)%nat) by (subst n; lia).
  rewrite plain_run_skipn by exact Hn.
  rewrite length_skipn. subst n. lia.
Qed.

(** ** Offsets and counts of the complex-span scanner *)

Lemma to_unsigned_bounds (x : Z) : 0 <= x -> 0 <= to_unsigned x <= x.
Proof.
  unfold to_unsigned. intros H.
  pose proof (Z.mod_pos_bound x (2 ^ 32) eq_refl).
  pose proof (Z.mod_le x (2 ^ 32) H eq_refl). lia.
Qed.

(** One round keeps the pointers in order; a round that breaks leaves
    [input] between the start of the span and the byte after the one just
    read. *)
Lemma nonascii_body_offsets (maxColumnCount : Z) (ch : byte) (v : loop_vars)
  (text_data : Z) :
  offsets_inv text_data v ->
  match nonascii_body maxColumnCount ch v with
  | Continue v' => offsets_inv text_data v' /\ v_input v' = v_input v + 1
  | Break v' =>
      text_data <= v_input v' <= v_input v + 1
      /\ v_resultEnd v' <= v_input v + 1
  end.
Proof.
  unfold offsets_inv. intros (Hcs & Hlcs & Hbc & Hre).
  pose proof (to_unsigned_bounds (v_byteCount v + 1) ltac:(lia)) as Hu.
  unfold nonascii_body, on_success.
  destruct (from_utf8 (utf8 (v_state v)) ch) as [[| |c] u'];
    repeat match goal with
      | |- context [if ?b then _ else _] => destruct b
      end;
    cbn [v_input v_clusterStart v_lastCodepointStart v_byteCount
           v_resultEnd];
    lia.
Qed.

Lemma nonascii_loop_offsets (maxColumnCount : Z) (bytes : list byte)
  (v : loop_vars) (text_data : Z) :
  offsets_inv text_data v ->
  let v' := nonascii_loop maxColumnCount bytes v in
  text_data <= v_input v' <= v_input v + Z.of_nat (length bytes)
  /\ v_resultEnd v' <= v_input v + Z.of_nat (length bytes).
Proof.
  revert v. induction bytes as [|ch bytes IH]; intros v Hinv; cbn zeta.
  - cbn [nonascii_loop length]. unfold offsets_inv in Hinv. lia.
  - cbn [nonascii_loop length]. rewrite Nat2Z.inj_succ.
    destruct ((v_count v <=? maxColumnCount) && is_complex ch).
    2:{ unfold offsets_inv in Hinv. lia. }
    pose proof (nonascii_body_offsets maxColumnCount ch v text_data Hinv)
      as Hbody.
    destruct (nonascii_body maxColumnCount ch v) as [v1|v1].
    + destruct Hbody as [Hinv1 Hin1].
      specialize (IH v1 Hinv1). cbn zeta in IH. lia.
    + lia.
Qed.

Lemma scan_for_text_nonascii_start (state : scan_state)
  (text_data : Z) (text : list byte) (maxColumnCount : Z) :
  start (snd (scan_for_text_nonascii state text_data text maxColumnCount))
  = (if negb (expectedLength (utf8 state) =? 0)%N
     then text_data - Z.of_N (currentLength (utf8 state))
     else text_data).
Proof.
  reflexivity.
Qed.

(** X4.  Every offset the complex-span scanner returns lies in the span it
    was given: [next] between the start and the end of the span, [end]
    between [start] and the end of the span (the assertion of line 204), and
    [start] at the start of the span, or [currentLength] bytes before it when
    a sequence was pending. *)
Theorem scan_for_text_nonascii_offsets_in_span (state : scan_state)
  (text_data : Z) (text : list byte) (maxColumnCount : Z) :
  let r := snd (scan_for_text_nonascii state text_data text maxColumnCount) in
  let text_end := text_data + Z.of_nat (length text) in
  text_data <= next r <= text_end
  /\ start r <= end_ r <= text_end
  /\ start r = (if negb (expectedLength (utf8 state) =? 0)%N
                then text_data - Z.of_N (currentLength (utf8 state))
                else text_data).
Proof.
  pose proof (scan_for_text_nonascii_start_le_end state text_data text
                maxColumnCount) as Hse.
  cbn zeta in *. unfold scan_for_text_nonascii in *.
  cbn [snd next start end_] in *.
  match goal with
  | |- context [nonascii_loop _ _ ?v0] =>
      pose proof (nonascii_loop_offsets maxColumnCount text v0 text_data)
        as Hoff
  end.
  cbn zeta in Hoff. cbn [v_input] in Hoff.
  destruct Hoff as [Hin Hre].
  { unfold offsets_inv. cbn.
    destruct (negb (expectedLength (utf8 state) =? 0)%N); lia. }
  repeat split; lia.
Qed.

(** X5.  Whatever the state, the span and the budget, the complex-span
    scanner reports at most one column more than its budget. *)
Theorem scan_for_text_nonascii_at_most_one_column_over
  (state : scan_state) (text_data : Z) (text : list byte)
  (maxColumnCount : Z) :
  0 <= maxColumnCount ->
  0 <= count (snd (scan_for_text_nonascii state text_data text
                     maxColumnCount))
    <= maxColumnCount + 1.
Proof.
  intros HB.
  exact (scan_for_text_nonascii_count_bound state text_data text
           maxColumnCount HB).
Qed.

(** A run of bytes that the decoder rejects one by one. *)
Lemma nonascii_loop_invalid_run (maxColumnCount : Z) (bytes : list byte)
  (v : loop_vars) (u0 : utf8_decoder_state) :
  (forall ch, In ch bytes ->
              is_complex ch = true /\ from_utf8 u0 ch = (Invalid, u0)) ->
  utf8 (v_state v) = u0 ->
  v_currentClusterWidth v = 0 ->
  0 <= v_count v ->
  maxColumnCount + 1 <= size_t_max ->
  let k := Z.min (Z.of_nat (length bytes))
             (Z.max 0 (maxColumnCount + 1 - v_count v)) in
  let v' := nonascii_loop maxColumnCount bytes v in
  v_count v' = v_count v + k
  /\ v_input v' = v_input v + k
  /\ v_currentClusterWidth v' = 0
  /\ v_resultEnd v' = v_resultEnd v.
Proof.
  revert v. induction bytes as [|ch bytes IH];
    intros v Hall Hu Hccw Hc HB; cbn zeta.
  - cbn [nonascii_loop length]. repeat split; lia.
  - cbn [nonascii_loop length]. rewrite Nat2Z.inj_succ.
    destruct (Hall ch (or_introl eq_refl)) as [Hcx Hinv].
    rewrite Hcx, andb_true_r.
    destruct (v_count v <=? maxColumnCount) eqn:Hguard.
    + apply Z.leb_le in Hguard.
      rewrite (nonascii_body_invalid _ _ _ u0) by (rewrite Hu; exact Hinv).
      match goal with
      | |- context [nonascii_loop _ _ ?v1] => specialize (IH v1)
      end.
      cbn zeta in IH.
      cbn [v_state utf8 v_currentClusterWidth v_count v_input v_resultEnd]
        in IH.
      rewrite to_size_t_small in IH by lia.
      destruct IH as (H1 & H2 & H3 & H4);
        [intros ch' Hin; apply Hall; right; exact Hin
        | reflexivity | reflexivity | lia | exact HB | ].
      rewrite to_size_t_small by lia.
      repeat split; lia.
    + apply Z.leb_gt in Hguard. repeat split; lia.
Qed.

(** X6.  The bound of one column over the budget is reached: on a span of
    bytes that the decoder rejects one by one, scanned with no sequence
    pending, the complex-span scanner counts [min(length, budget + 1)]
    columns, moves [next] by as many bytes and leaves [end] at [start]. *)
Theorem scan_for_text_nonascii_invalid_run (state : scan_state)
  (text_data : Z) (text : list byte) (maxColumnCount : Z) :
  expectedLength (utf8 state) = 0%N ->
  (forall ch, In ch text ->
              is_complex ch = true
              /\ from_utf8 (utf8 state) ch = (Invalid, utf8 state)) ->
  0 <= maxColumnCount -> maxColumnCount + 1 <= size_t_max ->
  let r := snd (scan_for_text_nonascii state text_data text maxColumnCount) in
  let k := Z.min (Z.of_nat (length text)) (maxColumnCount + 1) in
  count r = k /\ next r = text_data + k
  /\ start r = text_data /\ end_ r = text_data.
Proof.
  intros Hexp Hall HB Hmax. cbn zeta.
  unfold scan_for_text_nonascii. rewrite Hexp. cbn [N.eqb negb snd].
  match goal with
  | |- context [nonascii_loop _ _ ?v0] =>
      pose proof (nonascii_loop_invalid_run maxColumnCount text v0
                    (utf8 state) Hall eq_refl eq_refl (Z.le_refl 0) Hmax)
        as H
  end.
  cbn zeta in H. cbn [v_count v_input v_resultEnd] in H.
  destruct H as (Hc & Hi & Hw & Hre).
  cbn [count next start end_]. rewrite Hc, Hi, Hw, Hre.
  rewrite Z.sub_0_r, Z.add_0_r, Z.add_0_l.
  replace (Z.max 0 (maxColumnCount + 1)) with (maxColumnCount + 1) by lia.
  rewrite to_size_t_small by lia.
  repeat split; reflexivity.
Qed.

(** ** Sequences cut by the end of a chunk *)

(** The loop over bytes that the decoder answers [Incomplete]: only the
    decoder state, [input] and [byteCount] move. *)
Lemma nonascii_loop_incompletes (maxColumnCount : Z) (bytes : list byte)
  (v : loop_vars) (u' : utf8_decoder_state) :
  incompletes (utf8 (v_state v)) bytes = Some u' ->
  Forall (fun ch => is_complex ch = true) bytes ->
  v_count v <= maxColumnCount ->
  nonascii_loop maxColumnCount bytes v
  = mk_loop_vars (mk_scan_state u' (lastCodepointHint (v_state v)))
      (v_count v) (v_input v + Z.of_nat (length bytes))
      (v_clusterStart v) (v_lastCodepointStart v)
      (match bytes with
       | [] => v_byteCount v
       | _ => to_unsigned (v_byteCount v + Z.of_nat (length bytes))
       end)
      (v_currentClusterWidth v) (v_resultEnd v).
Proof.
  revert v. induction bytes as [|ch bytes IH]; intros v Hinc Hcx Hcount.
  - cbn in *. injection Hinc as <-. rewrite Z.add_0_r.
    destruct v as [[u h] ? ? ? ? ? ? ?]. reflexivity.
  - inversion Hcx as [|? ? Hch Hcx']; subst.
    cbn [nonascii_loop incompletes] in *. rewrite Hch.
    replace (v_count v <=? maxColumnCount) with true
      by (symmetry; apply Z.leb_le; exact Hcount).
    cbn [andb]. unfold nonascii_body.
    destruct (from_utf8 (utf8 (v_state v)) ch) as [[| |c0] u1];
      try discriminate.
    rewrite IH; [ | exact Hinc | exact Hcx' | exact Hcount ].
    cbn [v_state v_count v_input v_clusterStart v_lastCodepointStart
           v_byteCount v_currentClusterWidth v_resultEnd
           lastCodepointHint length].
    f_equal; [lia|].
    destruct bytes as [|ch' bytes']; [reflexivity|].
    unfold to_unsigned. rewrite Z.add_mod_idemp_l by lia.
    f_equal. cbn [length]. lia.
Qed.

(** X7.  A span that ends inside a multi-byte sequence (the decoder answers
    [Incomplete] to every byte), scanned with no sequence pending and a
    budget of at least 1: the driver returns [count = 0], [next] at the end
    of the span and [end = start]; the decoder state is kept for the next
    call and the codepoint hint is unchanged. *)
Theorem scan_for_text_chunk_ends_inside_sequence
  (mem : list byte) (text : string_view) (state : scan_state)
  (bytes : list byte) (u' : utf8_decoder_state) (maxColumnCount : Z) :
  bytes_of mem text = Some bytes ->
  bytes <> [] ->
  expectedLength (utf8 state) = 0%N ->
  incompletes (utf8 state) bytes = Some u' ->
  Forall (fun ch => is_complex ch = true) bytes ->
  1 <= maxColumnCount <= size_t_max ->
  scan_for_text mem state text maxColumnCount
  = Returns (mk_scan_state u' (lastCodepointHint state),
             mk_scan_result 0 (view_end text) (data text) (data text)).
Proof.
  intros Hb Hne Hexp Hinc Hcx HB.
  destruct (bytes_of_Some _ _ _ Hb) as (Hd & Hs & He & _).
  assert (Hlen : 1 <= size text).
  { destruct bytes; [contradiction | cbn [length] in Hs; lia]. }
  assert (Hfront : exists ch0, front mem text = Some ch0
                               /\ is_complex ch0 = true).
  { destruct bytes as [|ch0 rest]; [contradiction|].
    exists ch0. split; [exact (front_of_bytes _ _ _ _ Hb)|].
    inversion Hcx; assumption. }
  destruct Hfront as (ch0 & Hfront & Hch0).
  unfold scan_for_text. rewrite Hexp. cbn [N.eqb negb].
  rewrite Hfront, Hch0.
  replace (loop_fuel text) with (S (S (2 * Z.to_nat (size text))))
    by (unfold loop_fuel; lia).
  cbn [scan_loop count next]. unfold view_end.
  replace (0 <? maxColumnCount) with true by (symmetry; apply Z.ltb_lt; lia).
  replace (data text =? data text + size text) with false
    by (symmetry; apply Z.eqb_neq; lia).
  cbn [andb negb]. rewrite Hb, Z.sub_0_r, to_size_t_small by lia.
  unfold scan_for_text_nonascii. rewrite Hexp. cbn [N.eqb negb].
  rewrite (nonascii_loop_incompletes _ _ _ u');
    [ | exact Hinc | exact Hcx | cbn [v_count]; lia ].
  cbn [v_state v_count v_input v_currentClusterWidth v_resultEnd
         start end_ count next].
  rewrite Z.sub_diag. change (to_size_t 0) with 0.
  change (to_size_t (0 + 0)) with 0.
  unfold remove_prefix.
  replace (0 <=? size text) with true by (symmetry; apply Z.leb_le; lia).
  cbn [data size]. rewrite !Z.add_0_r, !Z.sub_0_r, <- Hs.
  change (to_size_t 0) with 0.
  rewrite Z.eqb_refl. cbn [negb]. rewrite andb_false_r.
  reflexivity.
Qed.

(** The call that completes a pending sequence: the remaining bytes [tail]
    of the sequence, then nothing or a byte with its high bit clear.  The
    codepoint opens a cluster that fits the budget. *)
Lemma scan_for_text_nonascii_completes_pending (state : scan_state)
  (text_data : Z) (tail rest : list byte) (c : char32_t)
  (u' : utf8_decoder_state) (maxColumnCount : Z) :
  expectedLength (utf8 state) <> 0%N ->
  decodes (utf8 state) tail = Some (c, u') ->
  Forall (fun ch => is_complex ch = true) tail ->
  match rest with
  | [] => True
  | ch :: _ => is_complex ch = false
  end ->
  breakable (lastCodepointHint state) c = true ->
  0 <= maxColumnCount ->
  to_size_t (width c) <= maxColumnCount ->
  scan_for_text_nonascii state text_data (tail ++ rest) maxColumnCount
  = (mk_scan_state u' c,
     mk_scan_result (to_size_t (width c))
       (text_data + Z.of_nat (length tail))
       (text_data - Z.of_N (currentLength (utf8 state)))
       (text_data + Z.of_nat (length tail))).
Proof.
  intros Hexp Hdec Hcx Hrest Hbrk HB Hw.
  pose proof (to_size_t_range (width c)) as Hr.
  unfold scan_for_text_nonascii.
  replace (expectedLength (utf8 state) =? 0)%N with false
    by (symmetry; apply N.eqb_neq; exact Hexp).
  cbn [negb].
  rewrite (nonascii_loop_decodes _ _ _ _ c u');
    [ | exact Hdec | exact Hcx | cbn [v_count]; lia ].
  unfold on_success.
  cbn [v_state v_currentClusterWidth v_count v_input v_byteCount
         v_lastCodepointStart v_clusterStart v_resultEnd].
  rewrite Hbrk. change (to_size_t (0 + 0)) with 0.
  replace (Z.max 0 (to_size_t (width c))) with (to_size_t (width c)) by lia.
  cbn [Z.add].
  rewrite (to_size_t_small (to_size_t (width c))) by lia.
  replace (to_size_t (width c) >? maxColumnCount) with false
    by (symmetry; rewrite Z.gtb_ltb; apply Z.ltb_ge; lia).
  rewrite nonascii_loop_not_complex by exact Hrest.
  cbn [v_state v_count v_currentClusterWidth v_input v_resultEnd].
  rewrite Z.add_0_l, (to_size_t_small (to_size_t (width c))) by lia.
  reflexivity.
Qed.

(** X8.  A call that completes a pending sequence and then meets a control
    byte: the driver reports the width of the completed codepoint, [start]
    as many bytes before the span as earlier calls had consumed of the
    sequence (line 131), and [end] and [next] just past the sequence. *)
Theorem scan_for_text_completes_pending_sequence
  (mem : list byte) (text : string_view) (state : scan_state)
  (tail : list byte) (ctrl : byte) (rest : list byte) (c : char32_t)
  (u' : utf8_decoder_state) (maxColumnCount : Z) :
  bytes_of mem text = Some (tail ++ ctrl :: rest) ->
  size text <= size_t_max ->
  expectedLength (utf8 state) <> 0%N ->
  decodes (utf8 state) tail = Some (c, u') ->
  Forall (fun ch => is_complex ch = true) tail ->
  is_control ctrl = true ->
  breakable (lastCodepointHint state) c = true ->
  0 <= maxColumnCount <= size_t_max ->
  to_size_t (width c) <= maxColumnCount ->
  let past := data text + Z.of_nat (length tail) in
  scan_for_text mem state text maxColumnCount
  = Returns (mk_scan_state u' c,
             mk_scan_result (to_size_t (width c)) past
               (data text - Z.of_N (currentLength (utf8 state))) past).
Proof.
  intros Hb Hsize Hexp Hdec Hcx Hctrl Hbrk HB Hw past.
  destruct (bytes_of_Some _ _ _ Hb) as (Hd & Hs & He & _).
  rewrite length_app in Hs. cbn [length] in Hs.
  pose proof (is_control_not_complex _ Hctrl) as Hnc.
  assert (Hna : is_ascii ctrl = false).
  { unfold is_ascii. rewrite Hctrl. reflexivity. }
  pose proof (to_size_t_range (width c)) as Hr.
  unfold scan_for_text.
  replace (expectedLength (utf8 state) =? 0)%N with false
    by (symmetry; apply N.eqb_neq; exact Hexp).
  cbn [negb]. rewrite Hb.
  rewrite (scan_for_text_nonascii_completes_pending state (data text) tail
             (ctrl :: rest) c u' maxColumnCount)
    by (assumption || lia).
  cbn [end_]. fold past. unfold view_end.
  replace (data text + size text - past) with (size text - Z.of_nat (length tail))
    by (subst past; lia).
  rewrite to_size_t_small by lia.
  pose proof (bytes_of_suffix mem text _ (Z.of_nat (length tail)) Hb
                ltac:(lia)) as Hsuf.
  rewrite Nat2Z.id, skipn_app, skipn_all, Nat.sub_diag in Hsuf.
  cbn [app skipn] in Hsuf. fold past in Hsuf.
  rewrite (front_of_bytes _ _ _ _ Hsuf), Hnc.
  unfold loop_fuel. cbn [size].
  replace (2 * Z.to_nat (size text - Z.of_nat (length tail)) + 2)%nat
    with (S (S (2 * Z.to_nat (size text - Z.of_nat (length tail))))) by lia.
  cbn [scan_loop].
  destruct (_ && _); [|reflexivity].
  rewrite Hsuf.
  pose proof (to_size_t_range (maxColumnCount - count
     (mk_scan_result (to_size_t (width c)) past
        (data text - Z.of_N (currentLength (utf8 state))) past))) as Hr2.
  rewrite scan_for_text_ascii_eq by lia.
  unfold leading_plain_capped. cbn [plain_run]. rewrite Hna.
  cbn [Z.of_nat]. replace (Z.min 0 _) with 0 by lia.
  reflexivity.
Qed.

(** X9.  A call whose span holds exactly the rest of a pending sequence, the
    completed codepoint fitting the budget: the working view is re-sliced to
    start at the returned [end], which is the end of the span, and the
    classification of line 236 then takes [front()] of an empty view. *)
Theorem scan_for_text_pending_sequence_fills_span
  (mem : list byte) (text : string_view) (state : scan_state)
  (tail : list byte) (c : char32_t) (u' : utf8_decoder_state)
  (maxColumnCount : Z) :
  bytes_of mem text = Some tail ->
  expectedLength (utf8 state) <> 0%N ->
  decodes (utf8 state) tail = Some (c, u') ->
  Forall (fun ch => is_complex ch = true) tail ->
  breakable (lastCodepointHint state) c = true ->
  0 <= maxColumnCount ->
  to_size_t (width c) <= maxColumnCount ->
  scan_for_text mem state text maxColumnCount = Undefined.
Proof.
  intros Hb Hexp Hdec Hcx Hbrk HB Hw.
  destruct (bytes_of_Some _ _ _ Hb) as (Hd & Hs & He & _).
  unfold scan_for_text.
  replace (expectedLength (utf8 state) =? 0)%N with false
    by (symmetry; apply N.eqb_neq; exact Hexp).
  cbn [negb]. rewrite Hb.
  rewrite <- (app_nil_r tail) at 1.
  rewrite (scan_for_text_nonascii_completes_pending state (data text) tail
             [] c u' maxColumnCount)
    by (assumption || exact I).
  cbn [end_]. unfold view_end.
  replace (data text + size text - (data text + Z.of_nat (length tail)))
    with 0 by lia.
  reflexivity.
Qed.

(** ** The driver *)

(** X10.  The driver loop ends: a Trivial round that does not return
    shortens the working view by at least one byte and a Complex round is
    followed by a Trivial one, so the [2 * size + 2] rounds the embedding
    allows are never used up, for any buffer, state, view and budget. *)
Theorem scan_for_text_terminates (mem : list byte) (state : scan_state)
  (text : string_view) (maxColumnCount : Z) :
  scan_for_text mem state text maxColumnCount <> OutOfFuel.
Proof.
  exact (scan_for_text_fuel_sufficient mem state text maxColumnCount).
Qed.

(** X11.  Whenever the driver returns, its merged [count] is at most one
    column above the budget. *)
Theorem scan_for_text_at_most_one_column_over (mem : list byte)
  (state : scan_state) (text : string_view) (maxColumnCount : Z)
  (state' : scan_state) (result : scan_result) :
  0 <= maxColumnCount ->
  scan_for_text mem state text maxColumnCount = Returns (state', result) ->
  0 <= count result <= maxColumnCount + 1.
Proof.
  intros HB Hret.
  exact (scan_for_text_count_bound mem state text maxColumnCount state'
           result HB Hret).
Qed.

Lemma plain_run_app_stop (plain : list byte) (stop : byte)
  (rest : list byte) :
  Forall (fun ch => is_ascii ch = true) plain ->
  is_ascii stop = false ->
  plain_run (plain ++ stop :: rest) = length plain.
Proof.
  intros Hplain Hstop.
  induction Hplain as [|ch plain Hch _ IH]; cbn [app plain_run length].
  - rewrite Hstop. reflexivity.
  - rewrite Hch, IH. reflexivity.
Qed.

(** X12.  Plain text up to a control byte, scanned with no sequence pending:
    the driver consumes [min(length of the plain run, budget)] bytes, one
    column each, never the control byte, and leaves the scan state as it
    was. *)
Theorem scan_for_text_stops_before_control_byte
  (mem : list byte) (text : string_view) (state : scan_state)
  (plain : list byte) (ctrl : byte) (rest : list byte)
  (maxColumnCount : Z) :
  bytes_of mem text = Some (plain ++ ctrl :: rest) ->
  Forall (fun ch => is_ascii ch = true) plain ->
  is_control ctrl = true ->
  expectedLength (utf8 state) = 0%N ->
  0 <= maxColumnCount <= size_t_max ->
  let n := Z.min (Z.of_nat (length plain)) maxColumnCount in
  scan_for_text mem state text maxColumnCount
  = Returns (state,
             mk_scan_result n (data text + n) (data text) (data text + n)).
Proof.
  intros Hb Hplain Hctrl Hexp HB n.
  destruct (bytes_of_Some _ _ _ Hb) as (Hd & Hs & He & _).
  rewrite length_app in Hs. cbn [length] in Hs.
  pose proof (is_control_not_complex _ Hctrl) as Hnc.
  assert (Hna : is_ascii ctrl = false).
  { unfold is_ascii. rewrite Hctrl. reflexivity. }
  pose proof (plain_run_app_stop plain ctrl rest Hplain Hna) as Hrun.
  assert (Hfront : exists ch0, front mem text = Some ch0
                               /\ is_complex ch0 = false).
  { destruct plain as [|ch0 plain'].
    - exists ctrl. split; [exact (front_of_bytes _ _ _ _ Hb) | exact Hnc].
    - exists ch0. split; [exact (front_of_bytes _ _ _ _ Hb)|].
      apply is_ascii_not_complex. inversion Hplain; assumption. }
  destruct Hfront as (ch0 & Hfront & Hch0).
  unfold scan_for_text. rewrite Hexp. cbn [N.eqb negb].
  rewrite Hfront, Hch0.
  replace (loop_fuel text) with (S (S (S (2 * Z.to_nat (size text) - 1))))
    by (unfold loop_fuel; lia).
  cbn [scan_loop count next]. unfold view_end.
  replace (data text =? data text + size text) with false
    by (symmetry; apply Z.eqb_neq; lia).
  cbn [negb]. rewrite andb_true_r.
  destruct (0 <? maxColumnCount) eqn:Hpos.
  2:{ apply Z.ltb_ge in Hpos. subst n.
      replace (Z.min (Z.of_nat (length plain)) maxColumnCount) with 0 by lia.
      rewrite Z.add_0_r. reflexivity. }
  apply Z.ltb_lt in Hpos.
  rewrite Hb, Z.sub_0_r, to_size_t_small by lia.
  rewrite scan_for_text_ascii_eq by lia.
  unfold leading_plain_capped. rewrite Hrun.
  replace (Z.min (Z.of_nat (length plain))
             (Z.min (Z.of_nat (length (plain ++ ctrl :: rest)))
                maxColumnCount))
    with n by (subst n; rewrite length_app; cbn [length]; lia).
  destruct (n =? 0) eqn:Hn0.
  { apply Z.eqb_eq in Hn0. rewrite Hn0, Z.add_0_r. reflexivity. }
  apply Z.eqb_neq in Hn0.
  unfold remove_prefix.
  replace (n <=? size text) with true
    by (symmetry; apply Z.leb_le; subst n; lia).
  cbn [count next start end_ data size].
  rewrite (to_size_t_small (0 + n)) by (subst n; lia). cbn [Z.add].
  replace (data text + n =? data text + n + (size text - n)) with false
    by (symmetry; apply Z.eqb_neq; subst n; lia).
  cbn [negb]. rewrite andb_true_r.
  destruct (n <? maxColumnCount) eqn:Hltb; [|reflexivity].
  pose proof (proj1 (Z.ltb_lt _ _) Hltb) as Hlt.
  assert (Hn : n = Z.of_nat (length plain)) by (subst n; lia).
  pose proof (bytes_of_suffix mem text _ n Hb ltac:(lia)) as Hsuf.
  rewrite Hn, Nat2Z.id, skipn_app, skipn_all, Nat.sub_diag in Hsuf.
  cbn [app skipn] in Hsuf. rewrite <- Hn in Hsuf.
  rewrite Hsuf.
  rewrite scan_for_text_nonascii_not_complex by exact Hnc.
  rewrite Hexp. cbn [N.eqb negb start end_ count next].
  rewrite Z.sub_diag. change (to_size_t 0) with 0.
  replace (0 <=? size text - n) with true
    by (symmetry; apply Z.leb_le; lia).
  cbn [data size]. rewrite !Z.add_0_r, !Z.sub_0_r.
  rewrite (to_size_t_small n) by lia.
  rewrite Hltb.
  replace (data text + n =? data text + n + (size text - n)) with false
    by (symmetry; apply Z.eqb_neq; lia).
  cbn [andb negb]. rewrite Hsuf.
  pose proof (to_size_t_range (maxColumnCount - n)) as Hr.
  rewrite scan_for_text_ascii_eq by lia.
  unfold leading_plain_capped. cbn [plain_run]. rewrite Hna.
  cbn [Z.of_nat]. replace (Z.min 0 _) with 0 by lia.
  reflexivity.
Qed.

Lemma scan_loop_start (fuel : nat) (mem : list byte) (maxColumnCount : Z)
  (nextState : NextState) (state : scan_state) (result : scan_result)
  (text : string_view) (state' : scan_state) (result' : scan_result) :
  scan_loop fuel mem maxColumnCount nextState state result text
  = Returns (state', result') ->
  start result' = start result.
Proof.
  revert nextState state result text.
  induction fuel as [|fuel IH]; intros nextState state result text Hret;
    cbn [scan_loop] in Hret.
  - destruct (_ && _); [discriminate|].
    injection Hret as _ <-. reflexivity.
  - destruct (_ && _).
    2:{ injection Hret as _ <-. reflexivity. }
    destruct (bytes_of mem text) as [bytes|]; [|discriminate].
    destruct nextState.
    + destruct (_ =? 0).
      { injection Hret as _ <-. reflexivity. }
      destruct (remove_prefix text _) as [text'|]; [|discriminate].
      apply IH in Hret. exact Hret.
    + destruct (scan_for_text_nonascii state (data text) bytes _)
        as [state1 sub].
      destruct (remove_prefix text _) as [text'|]; [|discriminate].
      apply IH in Hret. exact Hret.
Qed.

(** X13.  The [start] of the merged result is fixed before the loop and never
    moved by it: whenever the driver returns, [start] is the start of the
    span, or [currentLength] bytes before it when the call began with a
    sequence pending. *)
Theorem scan_for_text_start_fixed (mem : list byte) (state : scan_state)
  (text : string_view) (maxColumnCount : Z)
  (state' : scan_state) (result : scan_result) :
  scan_for_text mem state text maxColumnCount = Returns (state', result) ->
  start result
  = (if negb (expectedLength (utf8 state) =? 0)%N
     then data text - Z.of_N (currentLength (utf8 state))
     else data text).
Proof.
  unfold scan_for_text.
  destruct (negb (expectedLength (utf8 state) =? 0)%N) eqn:Hp.
  - destruct (bytes_of mem text) as [bytes|]; [|discriminate].
    pose proof (scan_for_text_nonascii_start state
                  (data text) bytes maxColumnCount) as Hst.
    destruct (scan_for_text_nonascii state (data text) bytes maxColumnCount)
      as [state1 r1].
    cbn [snd] in Hst. rewrite Hp in Hst.
    destruct (front mem _) as [ch|]; [|discriminate].
    intros Hret. apply scan_loop_start in Hret. congruence.
  - destruct (front mem text) as [ch|]; [|discriminate].
    intros Hret. apply scan_loop_start in Hret. exact Hret.
Qed.

(** ** Clusters that fit, and what follows them *)

(** One codepoint that opens a cluster and fits the budget, followed by
    nothing or by a byte with its high bit clear. *)
Lemma scan_for_text_nonascii_one_codepoint (state : scan_state)
  (text_data : Z) (cp rest : list byte) (c : char32_t)
  (u' : utf8_decoder_state) (maxColumnCount : Z) :
  decodes (utf8 state) cp = Some (c, u') ->
  Forall (fun ch => is_complex ch = true) cp ->
  match rest with
  | [] => True
  | ch :: _ => is_complex ch = false
  end ->
  breakable (lastCodepointHint state) c = true ->
  0 <= maxColumnCount ->
  to_size_t (width c) <= maxColumnCount ->
  scan_for_text_nonascii state text_data (cp ++ rest) maxColumnCount
  = (mk_scan_state u' c,
     mk_scan_result (to_size_t (width c))
       (text_data + Z.of_nat (length cp))
       (if negb (expectedLength (utf8 state) =? 0)%N
        then text_data - Z.of_N (currentLength (utf8 state))
        else text_data)
       (text_data + Z.of_nat (length cp))).
Proof.
  intros Hdec Hcx Hrest Hbrk HB Hw.
  pose proof (to_size_t_range (width c)) as Hr.
  unfold scan_for_text_nonascii.
  rewrite (nonascii_loop_decodes _ _ _ _ c u');
    [ | exact Hdec | exact Hcx | cbn [v_count]; lia ].
  unfold on_success.
  cbn [v_state v_currentClusterWidth v_count v_input v_byteCount
         v_lastCodepointStart v_clusterStart v_resultEnd].
  rewrite Hbrk. change (to_size_t (0 + 0)) with 0.
  replace (Z.max 0 (to_size_t (width c))) with (to_size_t (width c)) by lia.
  cbn [Z.add].
  rewrite (to_size_t_small (to_size_t (width c))) by lia.
  replace (to_size_t (width c) >? maxColumnCount) with false
    by (symmetry; rewrite Z.gtb_ltb; apply Z.ltb_ge; lia).
  rewrite nonascii_loop_not_complex by exact Hrest.
  cbn [v_state v_count v_currentClusterWidth v_input v_resultEnd].
  rewrite Z.add_0_l, (to_size_t_small (to_size_t (width c))) by lia.
  reflexivity.
Qed.

(** X14.  A codepoint that continues the current cluster and is not U+FE0F
    never changes the width of the cluster, whatever its own width: after a
    base that opens a cluster and fits the budget, it is consumed, [end] and
    [next] move past it, and the count stays the width of the base (line 146
    computes the maximum, the branch of line 168 does not store it). *)
Theorem continuing_codepoint_keeps_cluster_width (state : scan_state)
  (text_data : Z) (base mark rest : list byte) (cb cm : char32_t)
  (u1 u2 : utf8_decoder_state) (maxColumnCount : Z) :
  expectedLength (utf8 state) = 0%N ->
  decodes (utf8 state) base = Some (cb, u1) ->
  decodes u1 mark = Some (cm, u2) ->
  Forall (fun ch => is_complex ch = true) (base ++ mark) ->
  match rest with
  | [] => True
  | ch :: _ => is_complex ch = false
  end ->
  breakable (lastCodepointHint state) cb = true ->
  breakable cb cm = false -> cm <> VS16 ->
  0 <= maxColumnCount ->
  to_size_t (width cb) <= maxColumnCount ->
  let past := text_data + Z.of_nat (length (base ++ mark)) in
  scan_for_text_nonascii state text_data (base ++ mark ++ rest)
    maxColumnCount
  = (mk_scan_state u2 cm,
     mk_scan_result (to_size_t (width cb)) past text_data past).
Proof.
  intros Hexp Hbase Hmark Hcx Hrest Hb0 Hbm Hvs HB Hw past. subst past.
  apply Forall_app in Hcx as [Hcb Hcm].
  pose proof (to_size_t_range (width cb)) as Hr.
  unfold scan_for_text_nonascii. rewrite Hexp. cbn [N.eqb negb].
  set (v0 := mk_loop_vars state 0 text_data text_data text_data 0 0
               text_data).
  assert (Hloop : exists cs lcs bc,
             nonascii_loop maxColumnCount (base ++ mark ++ rest) v0
             = mk_loop_vars (mk_scan_state u2 cm) 0
                 (text_data + Z.of_nat (length (base ++ mark)))
                 cs lcs bc (to_size_t (width cb))
                 (text_data + Z.of_nat (length (base ++ mark)))).
  { do 3 eexists.
    rewrite (nonascii_loop_decodes _ _ _ _ cb u1);
      [ | exact Hbase | exact Hcb | cbn [v0 v_count]; lia ].
    unfold on_success.
    cbn [v0 v_state v_currentClusterWidth v_count v_input v_byteCount
           v_lastCodepointStart v_clusterStart v_resultEnd].
    rewrite Hb0. change (to_size_t (0 + 0)) with 0.
    replace (Z.max 0 (to_size_t (width cb))) with (to_size_t (width cb))
      by lia.
    cbn [Z.add].
    rewrite (to_size_t_small (to_size_t (width cb))) by lia.
    replace (to_size_t (width cb) >? maxColumnCount) with false
      by (symmetry; rewrite Z.gtb_ltb; apply Z.ltb_ge; lia).
    rewrite (nonascii_loop_decodes _ _ _ _ cm u2);
      [ | exact Hmark | exact Hcm | cbn [v_count]; lia ].
    unfold on_success.
    cbn [v_state lastCodepointHint v_currentClusterWidth v_count v_input
           v_byteCount v_lastCodepointStart v_clusterStart v_resultEnd].
    rewrite Hbm.
    replace (cm =? VS16)%N with false
      by (symmetry; apply N.eqb_neq; exact Hvs).
    rewrite nonascii_loop_not_complex by exact Hrest.
    rewrite length_app, Nat2Z.inj_add, Z.add_assoc.
    reflexivity. }
  destruct Hloop as (cs & lcs & bc & ->).
  cbn [v_state v_count v_currentClusterWidth v_input v_resultEnd].
  rewrite Z.add_0_l, (to_size_t_small (to_size_t (width cb))) by lia.
  reflexivity.
Qed.

(** The driver loop entering a Trivial round with the working view in step
    with the result, on plain text up to a control byte. *)
Lemma scan_loop_plain_then_control (fuel : nat) (mem : list byte)
  (maxColumnCount : Z) (state : scan_state) (result : scan_result)
  (text : string_view) (plain : list byte) (ctrl : byte)
  (rest : list byte) :
  bytes_of mem text = Some (plain ++ ctrl :: rest) ->
  Forall (fun ch => is_ascii ch = true) plain ->
  is_control ctrl = true ->
  expectedLength (utf8 state) = 0%N ->
  0 <= count result <= maxColumnCount ->
  maxColumnCount <= size_t_max ->
  next result = data text ->
  end_ result = data text ->
  let n := Z.min (Z.of_nat (length plain)) (maxColumnCount - count result) in
  scan_loop (S (S (S fuel))) mem maxColumnCount Trivial state result text
  = Returns (state,
             mk_scan_result (count result + n) (next result + n)
               (start result) (end_ result + n)).
Proof.
  intros Hb Hplain Hctrl Hexp Hc HB Hsync Hsync' n.
  destruct (bytes_of_Some _ _ _ Hb) as (Hd & Hs & He & _).
  rewrite length_app in Hs. cbn [length] in Hs.
  pose proof (is_control_not_complex _ Hctrl) as Hnc.
  assert (Hna : is_ascii ctrl = false).
  { unfold is_ascii. rewrite Hctrl. reflexivity. }
  pose proof (plain_run_app_stop plain ctrl rest Hplain Hna) as Hrun.
  cbn [scan_loop]. unfold view_end. rewrite Hsync, Hsync'.
  replace (data text =? data text + size text) with false
    by (symmetry; apply Z.eqb_neq; lia).
  cbn [negb]. rewrite andb_true_r.
  destruct (count result <? maxColumnCount) eqn:Hltb.
  2:{ apply Z.ltb_ge in Hltb. subst n.
      replace (Z.min _ _) with 0 by lia.
      destruct result as [c0 n0 s0 e0]; cbn [count next start end_] in *.
      subst n0 e0. rewrite !Z.add_0_r. reflexivity. }
  pose proof (proj1 (Z.ltb_lt _ _) Hltb) as Hlt.
  rewrite Hb, to_size_t_small by lia.
  rewrite scan_for_text_ascii_eq by lia.
  unfold leading_plain_capped. rewrite Hrun.
  replace (Z.min (Z.of_nat (length plain))
             (Z.min (Z.of_nat (length (plain ++ ctrl :: rest)))
                (maxColumnCount - count result)))
    with n by (subst n; rewrite length_app; cbn [length]; lia).
  destruct (n =? 0) eqn:Hn0.
  { apply Z.eqb_eq in Hn0. rewrite Hn0.
    destruct result as [c0 n0 s0 e0]; cbn [count next start end_] in *.
    subst n0 e0. rewrite !Z.add_0_r. reflexivity. }
  apply Z.eqb_neq in Hn0.
  unfold remove_prefix.
  replace (n <=? size text) with true
    by (symmetry; apply Z.leb_le; subst n; lia).
  cbn [count next start end_ data size].
  rewrite (to_size_t_small (count result + n)) by (subst n; lia).
  replace (data text + n =? data text + n + (size text - n)) with false
    by (symmetry; apply Z.eqb_neq; subst n; lia).
  cbn [negb]. rewrite andb_true_r.
  destruct (count result + n <? maxColumnCount) eqn:Hltb2; [|reflexivity].
  pose proof (proj1 (Z.ltb_lt _ _) Hltb2) as Hlt2.
  assert (Hn : n = Z.of_nat (length plain)) by (subst n; lia).
  pose proof (bytes_of_suffix mem text _ n Hb ltac:(lia)) as Hsuf.
  rewrite Hn, Nat2Z.id, skipn_app, skipn_all, Nat.sub_diag in Hsuf.
  cbn [app skipn] in Hsuf. rewrite <- Hn in Hsuf.
  rewrite Hsuf.
  rewrite scan_for_text_nonascii_not_complex by exact Hnc.
  rewrite Hexp. cbn [N.eqb negb start end_ count next].
  rewrite Z.sub_diag. change (to_size_t 0) with 0.
  replace (0 <=? size text - n) with true
    by (symmetry; apply Z.leb_le; lia).
  cbn [data size]. rewrite !Z.add_0_r, !Z.sub_0_r.
  rewrite (to_size_t_small (count result + n)) by lia.
  rewrite Hltb2.
  replace (data text + n =? data text + n + (size text - n)) with false
    by (symmetry; apply Z.eqb_neq; lia).
  cbn [andb negb]. rewrite Hsuf.
  pose proof (to_size_t_range (maxColumnCount - (count result + n))) as Hr.
  rewrite scan_for_text_ascii_eq by lia.
  unfold leading_plain_capped. cbn [plain_run]. rewrite Hna.
  cbn [Z.of_nat]. replace (Z.min 0 _) with 0 by lia.
  reflexivity.
Qed.

(** X15.  The two scanners in turn: a span that starts with one codepoint
    outside ASCII which opens a cluster and fits the budget, followed by
    plain text up to a control byte.  The driver adds the width of the
    codepoint and one column per plain byte as far as the budget goes, and
    [end] and [next] stand after the last byte taken. *)
Theorem scan_for_text_codepoint_then_plain_text
  (mem : list byte) (text : string_view) (state : scan_state)
  (cp plain : list byte) (ctrl : byte) (rest : list byte) (c : char32_t)
  (u' : utf8_decoder_state) (maxColumnCount : Z) :
  bytes_of mem text = Some (cp ++ plain ++ ctrl :: rest) ->
  size text <= size_t_max ->
  expectedLength (utf8 state) = 0%N ->
  decodes (utf8 state) cp = Some (c, u') ->
  expectedLength u' = 0%N ->
  Forall (fun ch => is_complex ch = true) cp ->
  Forall (fun ch => is_ascii ch = true) plain ->
  is_control ctrl = true ->
  breakable (lastCodepointHint state) c = true ->
  1 <= maxColumnCount <= size_t_max ->
  to_size_t (width c) <= maxColumnCount ->
  let w := to_size_t (width c) in
  let n := Z.min (Z.of_nat (length plain)) (maxColumnCount - w) in
  let past := data text + Z.of_nat (length cp) + n in
  scan_for_text mem state text maxColumnCount
  = Returns (mk_scan_state u' c,
             mk_scan_result (w + n) past (data text) past).
Proof.
  intros Hb Hsize Hexp Hdec Hexp' Hcx Hplain Hctrl Hbrk HB Hw w n past.
  destruct (bytes_of_Some _ _ _ Hb) as (Hd & Hs & He & _).
  rewrite !length_app in Hs. cbn [length] in Hs.
  pose proof (to_size_t_range (width c)) as Hr. fold w in Hr, Hw.
  pose proof (is_control_not_complex _ Hctrl) as Hnc.
  assert (Hlc : 1 <= Z.of_nat (length cp)).
  { destruct cp; [discriminate | cbn [length]; lia]. }
  assert (Hfront : exists ch0, front mem text = Some ch0
                               /\ is_complex ch0 = true).
  { destruct cp as [|ch0 cp']; [discriminate|].
    exists ch0. split; [exact (front_of_bytes _ _ _ _ Hb)|].
    inversion Hcx; assumption. }
  destruct Hfront as (ch0 & Hfront & Hch0).
  assert (Hstop : match plain ++ ctrl :: rest with
                  | [] => True
                  | ch :: _ => is_complex ch = false
                  end).
  { destruct Hplain as [|p ps Hp _]; cbn [app]; [exact Hnc|].
    apply is_ascii_not_complex, Hp. }
  unfold scan_for_text. rewrite Hexp. cbn [N.eqb negb].
  rewrite Hfront, Hch0.
  replace (loop_fuel text)
    with (S (S (S (S (2 * Z.to_nat (size text) - 2)))))
    by (unfold loop_fuel; lia).
  remember (S (S (S (2 * Z.to_nat (size text) - 2)))) as fuel eqn:Hfuel.
  cbn [scan_loop count next]. unfold view_end.
  replace (data text =? data text + size text) with false
    by (symmetry; apply Z.eqb_neq; lia).
  cbn [negb]. rewrite andb_true_r.
  replace (0 <? maxColumnCount) with true by (symmetry; apply Z.ltb_lt; lia).
  rewrite Hb, Z.sub_0_r, to_size_t_small by lia.
  rewrite (scan_for_text_nonascii_one_codepoint state (data text) cp
             (plain ++ ctrl :: rest) c u' maxColumnCount)
    by (assumption || lia).
  rewrite Hexp. cbn [N.eqb negb start end_ count next]. fold w.
  replace (data text + Z.of_nat (length cp) - data text)
    with (Z.of_nat (length cp)) by lia.
  rewrite to_size_t_small by lia.
  unfold remove_prefix.
  replace (Z.of_nat (length cp) <=? size text) with true
    by (symmetry; apply Z.leb_le; lia).
  rewrite Z.add_0_l, to_size_t_small by lia.
  pose proof (bytes_of_suffix mem text _ (Z.of_nat (length cp)) Hb
                ltac:(lia)) as Hsuf.
  rewrite Nat2Z.id, skipn_app, skipn_all, Nat.sub_diag in Hsuf.
  cbn [app skipn] in Hsuf. cbn [data size]. rewrite Hfuel.
  rewrite (scan_loop_plain_then_control _ mem maxColumnCount
             (mk_scan_state u' c) _ _ plain ctrl rest Hsuf Hplain Hctrl);
    [ | exact Hexp' | cbn [count]; lia | lia | reflexivity | reflexivity ].
  cbn [count next start end_]. subst n past. reflexivity.
Qed.

(** ** The budget on well-formed input *)

Lemma nonascii_loop_within_budget (maxColumnCount : Z) (bytes : list byte)
  (v : loop_vars) :
  no_invalid (utf8 (v_state v)) bytes = true ->
  0 <= v_count v ->
  to_size_t (v_count v + v_currentClusterWidth v) <= maxColumnCount ->
  let v' := nonascii_loop maxColumnCount bytes v in
  0 <= v_count v'
  /\ to_size_t (v_count v' + v_currentClusterWidth v') <= maxColumnCount.
Proof.
  revert v. induction bytes as [|ch bytes IH]; intros v Hno Hnn Hinv;
    cbn zeta.
  - cbn [nonascii_loop]. split; assumption.
  - cbn [nonascii_loop no_invalid] in *.
    destruct (v_count v <=? maxColumnCount) eqn:Hguard;
      [|split; assumption].
    destruct (is_complex ch); cbn [andb]; [|split; assumption].
    apply Z.leb_le in Hguard.
    pose proof (to_size_t_range (v_count v + v_currentClusterWidth v)) as Hr.
    unfold nonascii_body, on_success.
    destruct (from_utf8 (utf8 (v_state v)) ch) as [[| |c] u'];
      [discriminate | | ].
    + apply IH; assumption.
    + destruct (breakable (lastCodepointHint (v_state v)) c).
      * destruct (_ >? maxColumnCount) eqn:Hgt.
        -- cbn. rewrite Z.add_0_r.
           pose proof (to_size_t_le
                         (to_size_t (v_count v + v_currentClusterWidth v))).
           lia.
        -- rewrite Z.gtb_ltb in Hgt. apply Z.ltb_ge in Hgt.
           apply IH; cbn; [exact Hno | lia | exact Hgt].
      * destruct (c =? VS16)%N.
        -- destruct (_ >? maxColumnCount) eqn:Hgt.
           ++ cbn. rewrite Z.add_0_r.
              pose proof (to_size_t_le (v_count v) Hnn). lia.
           ++ rewrite Z.gtb_ltb in Hgt. apply Z.ltb_ge in Hgt.
              apply IH; cbn; [exact Hno | exact Hnn | exact Hgt].
        -- apply IH; cbn; assumption.
Qed.

(** X16.  On a span in which the decoder rejects no byte, the complex-span
    scanner keeps to the budget: the reported [count] is at most the budget,
    for every state and every budget. *)
Theorem scan_for_text_nonascii_within_budget (state : scan_state)
  (text_data : Z) (text : list byte) (maxColumnCount : Z) :
  no_invalid (utf8 state) text = true ->
  0 <= maxColumnCount ->
  0 <= count (snd (scan_for_text_nonascii state text_data text
                     maxColumnCount))
    <= maxColumnCount.
Proof.
  intros Hno HB. unfold scan_for_text_nonascii. cbn [snd count].
  match goal with
  | |- context [nonascii_loop _ _ ?v0] =>
      pose proof (nonascii_loop_within_budget maxColumnCount text v0) as H
  end.
  cbn zeta in H. cbn [v_state v_count v_currentClusterWidth] in H.
  destruct H as [Hnn Hle]; [exact Hno | lia | change (to_size_t (0 + 0)) with 0; lia | ].
  match goal with
  | |- context [to_size_t ?x] => pose proof (to_size_t_range x)
  end.
  lia.
Qed.

End FurtherProperties.

(** * Runs with the reference collaborators *)

Import Reference.

(** C1.  The code on malformed input: every byte the decoder rejects adds a
    column without a budget check (line 191), so [count] passes the budget.
    A single byte 0xFF with budget 0 makes the complex-span scanner report 1
    column; two bytes 0xFF with budget 1 make the driver report 2. *)
Theorem count_exceeds_budget_on_invalid_bytes :
  (let r := snd (scan_for_text_nonascii fresh_state 0 [xff] 0) in
   count r = 1 /\ ~ count r <= 0)
  /\ (exists state,
         scan_for_text [xff; xff] fresh_state (whole [xff; xff]) 1
         = Returns (state, mk_scan_result 2 2 0 0)
         /\ ~ 2 <= 1).
Proof.
  split.
  - assert (H : count (snd (scan_for_text_nonascii fresh_state 0 [xff] 0))
                = 1) by (vm_compute; reflexivity).
    cbn zeta. rewrite H. split; [reflexivity | lia].
  - eexists. split.
    + vm_compute. reflexivity.
    + lia.
Qed.

(** C2.  The code on the rewind paths.  Alef, a combining acute accent, then
    a wide codepoint that does not fit in budget 1: [byteCount] still counts
    the bytes of the accent (the branch of line 168 does not reset it), so
    line 157 rewinds [next] to offset 2 while [end] was already moved to 4;
    the driver leaves its loop with [end > next], the case line 265 asserts
    against.  A heart followed by U+FE0F in budget 1: [end] is set at line
    170 before the rewind of line 179, so [end = 6] and [next = 0]; with
    "abc" after the selector the driver goes on behind the rejected cluster,
    takes the "a" and leaves through line 265 with [count = 1], [next = 1]
    and [end = 7].  And a three-byte sequence cut after its first byte and
    followed by a plain byte in the next chunk: the second call returns
    [start = 1], [end = 0]. *)
Theorem end_passes_next_after_overflow_rewind :
  (exists state,
      scan_for_text (alef ++ acute ++ zhong) fresh_state
        (whole (alef ++ acute ++ zhong)) 1
      = Returns (state, mk_scan_result 1 2 0 4))
  /\ snd (scan_for_text_nonascii fresh_state 0 (alef ++ acute ++ zhong) 1)
     = mk_scan_result 1 2 0 4
  /\ snd (scan_for_text_nonascii fresh_state 0 (heart ++ vs16) 1)
     = mk_scan_result 0 0 0 6
  /\ (exists state,
         scan_for_text (heart ++ vs16) fresh_state (whole (heart ++ vs16)) 1
         = Returns (state, mk_scan_result 0 0 0 6))
  /\ (exists state,
         scan_for_text (heart ++ vs16 ++ [x61; x62; x63]) fresh_state
           (whole (heart ++ vs16 ++ [x61; x62; x63])) 1
         = Returns (state, mk_scan_result 1 1 0 7))
  /\ (exists pending state r,
         scan_for_text [x41; xe4; x41] fresh_state (mk_string_view 1 1) 5
         = Returns (pending, mk_scan_result 0 2 1 1)
         /\ scan_for_text [x41; xe4; x41] pending (mk_string_view 2 1) 5
            = Returns (state, r)
         /\ start r = 1 /\ end_ r = 0).
Proof.
  split.
  { eexists. vm_compute. reflexivity. }
  split.
  { vm_compute. reflexivity. }
  split.
  { vm_compute. reflexivity. }
  split.
  { eexists. vm_compute. reflexivity. }
  split.
  { eexists. vm_compute. reflexivity. }
  do 3 eexists. split.
  - vm_compute. reflexivity.
  - split.
    + vm_compute. reflexivity.
    + split; reflexivity.
Qed.

(** Against C6 as stated: the keycap base U+0023 NUMBER SIGN followed by
    U+FE0F, an emoji presentation sequence whose base has width 1, with
    budget 2.  The base
    is a plain byte, so the fast path takes it as one column of its own and
    records no codepoint; the selector then opens a cluster of width 0.  The
    driver reports 1 column, not 2, and the complex-span scanner, whose loop
    stops at the plain byte, reports 0. *)
Lemma keycap_base_not_widened_by_vs16 :
  let text := [x23] ++ vs16 in
  decodes (utf8 fresh_state) [x23] = Some (0x23%N, empty_decoder)
  /\ width 0x23%N = 1
  /\ breakable 0x23%N VS16 = false
  /\ (exists state r,
         scan_for_text text fresh_state (whole text) 2 = Returns (state, r)
         /\ count r = 1 /\ count r <> 2)
  /\ count (snd (scan_for_text_nonascii fresh_state 0 text 2)) = 0.
Proof.
  cbn zeta. split; [reflexivity|]. split; [reflexivity|].
  split; [reflexivity|]. split.
  - do 2 eexists. split.
    + vm_compute. reflexivity.
    + split; [reflexivity | discriminate].
  - vm_compute. reflexivity.
Qed.

(** Against C7 as stated: the same cluster, of display width 2 by the
    selector rule, with budget 1: the fast path consumes the base, so the driver reports [count = 1]
    with [next] and [end] one byte into the cluster, not [count = 0] with
    [next] and [end] at its start. *)
Lemma keycap_cluster_not_rejected_on_overflow :
  let text := [x23] ++ vs16 in
  exists state r,
    scan_for_text text fresh_state (whole text) 1 = Returns (state, r)
    /\ count r = 1 /\ next r = 1 /\ end_ r = 1
    /\ ~ (count r = 0 /\ next r = 0 /\ end_ r = start r).
Proof.
  cbn zeta. do 2 eexists. split.
  - vm_compute. reflexivity.
  - repeat split; try reflexivity. intros (H & _). discriminate H.
Qed.


(** Against C5 as stated: on the one-byte text "A" with budget 1 the fast
    path returns 1 column and 1 byte, the complex-span scanner 0 columns and
    0 bytes. *)
Lemma scanners_differ_on_plain_text :
  let r := snd (scan_for_text_nonascii fresh_state 0 [x41] 1) in
  ~ (scan_for_text_ascii [x41] 1 = count r
     /\ scan_for_text_ascii [x41] 1 = next r - start r).
Proof.
  vm_compute. intros (H & _). discriminate H.
Qed.

(** Against C10 as stated: the span returned for 0xFF followed by alef is
    [0, 3).  It holds the byte the decoder rejected, next to the successfully
    decoded codepoint. *)
Lemma invalid_byte_inside_returned_span :
  let r := snd (scan_for_text_nonascii fresh_state 0 ([xff] ++ alef) 10) in
  fst (from_utf8 (utf8 fresh_state) xff) = Invalid
  /\ start r = 0 /\ end_ r = 3 /\ start r <= 0 < end_ r.
Proof.
  vm_compute. repeat split; discriminate.
Qed.

(** *** The general theorems at concrete inputs *)

Lemma scan_for_text_stops_after_invalid_lead_byte_witness :
  scan_for_text [xff; x61; x62] fresh_state (whole [xff; x61; x62]) 10
  = Returns (fresh_state, mk_scan_result 1 1 0 0).
Proof.
  apply (scan_for_text_stops_after_invalid_lead_byte
           [xff; x61; x62] (whole [xff; x61; x62]) fresh_state xff
           [x61; x62] empty_decoder 10).
  - reflexivity.
  - reflexivity.
  - reflexivity.
  - reflexivity.
  - repeat constructor.
  - vm_compute. split; discriminate.
Defined.

Lemma scan_for_text_empty_span_undefined_witness :
  expectedLength (utf8 fresh_state) = 0%N
  /\ scan_for_text [x61] fresh_state (mk_string_view 0 0) 10 = Undefined.
Proof.
  split; [reflexivity|].
  apply (scan_for_text_empty_span_undefined [x61] fresh_state 0 10).
  reflexivity.
Defined.

Lemma invalid_byte_counts_one_column_and_leaves_end_witness :
  let r := snd (scan_for_text_nonascii fresh_state 0 [xff] 10) in
  count r = 1 /\ end_ r = start r /\ start r = 0 /\ next r = 0 + 1.
Proof.
  destruct invalid_byte_counts_one_column_and_leaves_end as (_ & _ & H).
  apply (H fresh_state 0 xff 10 empty_decoder).
  - reflexivity.
  - reflexivity.
  - reflexivity.
  - lia.
Defined.

Lemma ascii_and_complex_scanners_on_plain_text_witness :
  scan_for_text_ascii [x61; x62; x63] 2 = 2
  /\ scan_for_text_nonascii fresh_state 0 [x61; x62; x63] 2
     = (fresh_state, mk_scan_result 0 0 0 0).
Proof.
  destruct (ascii_and_complex_scanners_on_plain_text [x61; x62; x63] 0 2)
    as (Hascii & Hcomplex & _).
  - repeat constructor.
  - lia.
  - split; [exact Hascii | exact Hcomplex].
Defined.

Lemma vs16_widens_cluster_to_two_columns_witness :
  (exists state,
      scan_for_text (heart ++ vs16) fresh_state (whole (heart ++ vs16)) 2
      = Returns (state, mk_scan_result 2 6 0 6))
  /\ (exists state,
         scan_for_text (heart ++ vs16) fresh_state (whole (heart ++ vs16)) 1
         = Returns (state, mk_scan_result 0 0 0 6)).
Proof.
  destruct (vs16_widens_cluster_to_two_columns
              (heart ++ vs16) (whole (heart ++ vs16)) heart vs16
              0x2764%N empty_decoder empty_decoder)
    as ((_ & H2) & (_ & H1)).
  - reflexivity.
  - vm_compute. discriminate.
  - reflexivity.
  - reflexivity.
  - repeat constructor.
  - repeat constructor.
  - reflexivity.
  - reflexivity.
  - reflexivity.
  - split; eexists; [exact H2 | exact H1].
Defined.


Lemma wide_cluster_overflow_rewinds_to_cluster_start_witness :
  scan_for_text zhong fresh_state (whole zhong) 1
  = Returns (mk_scan_state empty_decoder 0x4E2D%N, mk_scan_result 0 0 0 0).
Proof.
  destruct (wide_cluster_overflow_rewinds_to_cluster_start
              zhong (whole zhong)) as (H & _).
  destruct (H fresh_state zhong [] 0x4E2D%N empty_decoder) as (_ & Hd).
  - reflexivity.
  - reflexivity.
  - reflexivity.
  - repeat constructor.
  - vm_compute. reflexivity.
  - reflexivity.
  - reflexivity.
  - exact Hd.
Defined.

(** *** The further properties at concrete inputs *)

Lemma sse2_mask_locates_first_non_plain_byte_witness :
  length sample_batch = 16%nat
  /\ 0 <= check_of sample_batch < 2 ^ 16
  /\ (check_of sample_batch = 0
      <-> Forall (fun ch => is_ascii ch = true) sample_batch).
Proof.
  split; [reflexivity|].
  destruct (sse2_mask_locates_first_non_plain_byte sample_batch eq_refl)
    as (Hb & Hz & _).
  split; [exact Hb | exact Hz].
Defined.

Lemma scan_for_text_ascii_resume_witness :
  scan_for_text_ascii [x61; x62; x63; x64] (1 + 2)
  = scan_for_text_ascii [x61; x62; x63; x64] 1
    + scan_for_text_ascii
        (skipn (Z.to_nat (scan_for_text_ascii [x61; x62; x63; x64] 1))
           [x61; x62; x63; x64]) 2.
Proof.
  apply (scan_for_text_ascii_resume [x61; x62; x63; x64] 1 2); lia.
Defined.

Lemma scan_for_text_nonascii_at_most_one_column_over_witness :
  0 <= count (snd (scan_for_text_nonascii fresh_state 0 [xff] 0)) <= 0 + 1.
Proof.
  apply (scan_for_text_nonascii_at_most_one_column_over fresh_state 0 [xff] 0).
  lia.
Defined.

Lemma scan_for_text_nonascii_invalid_run_witness :
  let r := snd (scan_for_text_nonascii fresh_state 0 [xff; xff; xff] 1) in
  count r = 2 /\ next r = 2 /\ start r = 0 /\ end_ r = 0.
Proof.
  apply (scan_for_text_nonascii_invalid_run fresh_state 0 [xff; xff; xff] 1).
  - reflexivity.
  - intros ch [<- | [<- | [<- | []]]]; split; reflexivity.
  - lia.
  - vm_compute. discriminate.
Defined.

Lemma scan_for_text_chunk_ends_inside_sequence_witness :
  scan_for_text zhong fresh_state (mk_string_view 0 2) 5
  = Returns (zhong_pending, mk_scan_result 0 2 0 0).
Proof.
  etransitivity.
  - apply (scan_for_text_chunk_ends_inside_sequence zhong (mk_string_view 0 2)
             fresh_state [xe4; xb8]
             (mk_utf8_decoder_state 312%N 3%N 2%N) 5).
    + reflexivity.
    + discriminate.
    + reflexivity.
    + reflexivity.
    + repeat constructor.
    + vm_compute. split; discriminate.
  - vm_compute. reflexivity.
Defined.

Lemma scan_for_text_completes_pending_sequence_witness :
  scan_for_text (zhong ++ [x0a]) zhong_pending (mk_string_view 2 2) 5
  = Returns (mk_scan_state empty_decoder 0x4E2D%N, mk_scan_result 2 3 0 3).
Proof.
  etransitivity.
  - apply (scan_for_text_completes_pending_sequence (zhong ++ [x0a])
             (mk_string_view 2 2) zhong_pending [xad] x0a [] 0x4E2D%N
             empty_decoder 5).
    + reflexivity.
    + vm_compute. discriminate.
    + discriminate.
    + reflexivity.
    + repeat constructor.
    + reflexivity.
    + reflexivity.
    + vm_compute. split; discriminate.
    + vm_compute. discriminate.
  - vm_compute. reflexivity.
Defined.

Lemma scan_for_text_pending_sequence_fills_span_witness :
  scan_for_text zhong zhong_pending (mk_string_view 2 1) 5 = Undefined.
Proof.
  apply (scan_for_text_pending_sequence_fills_span zhong
           (mk_string_view 2 1) zhong_pending [xad] 0x4E2D%N empty_decoder 5).
  - reflexivity.
  - discriminate.
  - reflexivity.
  - repeat constructor.
  - reflexivity.
  - lia.
  - vm_compute. discriminate.
Defined.

Lemma scan_for_text_at_most_one_column_over_witness :
  0 <= count (mk_scan_result 2 2 0 0) <= 1 + 1.
Proof.
  apply (scan_for_text_at_most_one_column_over [xff; xff] fresh_state
           (whole [xff; xff]) 1 fresh_state (mk_scan_result 2 2 0 0)).
  - lia.
  - vm_compute. reflexivity.
Defined.

Lemma scan_for_text_stops_before_control_byte_witness :
  scan_for_text [x61; x62; x0a; x63] fresh_state
    (whole [x61; x62; x0a; x63]) 5
  = Returns (fresh_state, mk_scan_result 2 2 0 2).
Proof.
  etransitivity.
  - apply (scan_for_text_stops_before_control_byte [x61; x62; x0a; x63]
             (whole [x61; x62; x0a; x63]) fresh_state [x61; x62] x0a [x63] 5).
    + reflexivity.
    + repeat constructor.
    + reflexivity.
    + reflexivity.
    + vm_compute. split; discriminate.
  - vm_compute. reflexivity.
Defined.

Lemma scan_for_text_start_fixed_witness :
  start (mk_scan_result 2 3 0 3) = 2 - 2.
Proof.
  apply (scan_for_text_start_fixed (zhong ++ [x0a]) zhong_pending
           (mk_string_view 2 2) 5
           (mk_scan_state empty_decoder 0x4E2D%N) (mk_scan_result 2 3 0 3)).
  vm_compute. reflexivity.
Defined.

Lemma continuing_codepoint_keeps_cluster_width_witness :
  scan_for_text_nonascii fresh_state 0 (alef ++ acute ++ []) 1
  = (mk_scan_state empty_decoder 0x301%N, mk_scan_result 1 4 0 4).
Proof.
  etransitivity.
  - apply (continuing_codepoint_keeps_cluster_width fresh_state 0 alef acute []
             0x5D0%N 0x301%N empty_decoder empty_decoder 1).
    + reflexivity.
    + reflexivity.
    + reflexivity.
    + repeat constructor.
    + exact I.
    + reflexivity.
    + reflexivity.
    + discriminate.
    + lia.
    + vm_compute. discriminate.
  - vm_compute. reflexivity.
Defined.

Lemma scan_for_text_codepoint_then_plain_text_witness :
  scan_for_text (alef ++ [x61; x62] ++ [x0a]) fresh_state
    (whole (alef ++ [x61; x62] ++ [x0a])) 5
  = Returns (mk_scan_state empty_decoder 0x5D0%N, mk_scan_result 3 4 0 4).
Proof.
  etransitivity.
  - apply (scan_for_text_codepoint_then_plain_text
             (alef ++ [x61; x62] ++ [x0a])
             (whole (alef ++ [x61; x62] ++ [x0a])) fresh_state alef
             [x61; x62] x0a [] 0x5D0%N empty_decoder 5).
    + reflexivity.
    + vm_compute. discriminate.
    + reflexivity.
    + reflexivity.
    + reflexivity.
    + repeat constructor.
    + repeat constructor.
    + reflexivity.
    + reflexivity.
    + vm_compute. split; discriminate.
    + vm_compute. discriminate.
  - vm_compute. reflexivity.
Defined.

Lemma scan_for_text_nonascii_within_budget_witness :
  0 <= count (snd (scan_for_text_nonascii fresh_state 0 (heart ++ vs16) 1))
    <= 1.
Proof.
  apply (scan_for_text_nonascii_within_budget fresh_state 0 (heart ++ vs16) 1).
  - reflexivity.
  - lia.
Defined.
